(** * Door access controller (main.py): shallow embedding and verification

    The controller in [main.py] is a set of Python functions that share the
    module-level globals: the main loop ([main]) calls [process_rfid_events],
    [check_face_recognition_result] and, behind the proximity gate,
    [start_face_recognition]; background threads and callbacks
    ([alarm_monitor_thread], [rfid_reader_thread], [pir_motion_callback],
    [pir_watchdog_thread], [on_face_result], the image workers) read and write
    the same globals.

    Modelling choices, all on the side of the source:
    - [time.time()] values, sleep durations and distances are rationals ([Q]);
      the constants are the ones of the source (seconds, centimetres).
    - every function is a computation in a small state monad over [world]:
      the module globals, the wall clock, the futures of the thread pool and
      the trace of calls made to the collaborators (status sender, servo,
      executor, the PIR pin read by the watchdog).  A trace entry keeps the
      clock and the globals at the moment of the call, so that ordering
      between assignments and calls can be read off the trace.
    - [time.sleep(d)] advances the clock by [d], and a [reader.read_card()]
      made by the main loop blocks for the time its answer says; everything
      else is instantaneous inside one function; time also passes between
      calls.
    - what a collaborator answers (door sensor, card reader, distance sensor)
      is an argument of the function that asks; an exception raised by the
      collaborator is one of the possible answers.
    - threads interleave at the granularity of one function call / one loop
      iteration; [print] calls are not modelled. *)

From Stdlib Require Import QArith Lqa ZArith List String Bool.
From stdpp Require Import base gmap sets list strings.

Local Open Scope Q_scope.

(** ** Rational time: boolean comparisons as the source writes them *)

Module QTime.

(** [x > y] *)
Definition gtb (x y : Q) : bool := negb (Qle_bool x y).
(** [x <= y] *)
Definition leb (x y : Q) : bool := Qle_bool x y.
(** Python's [int(x)]: truncation toward zero. *)
Definition to_int (x : Q) : Z := Z.quot (Qnum x) (Zpos (Qden x)).
(** A strictly positive amount of time, [n/d] seconds. *)
Definition span (n d : positive) : Q := Zpos n # d.

End QTime.

Arguments QTime.gtb : simpl never.
Arguments QTime.leb : simpl never.

(** ** Constants of the module *)

Definition AUTHORIZED_DOOR_OPEN_INTERVAL : Q := 5.
Definition FACE_RECOGNITION_COOLDOWN : Q := 10.
Definition FACE_RECOGNITION_TIMEOUT : Q := 5.
(** Local constant of [main]. *)
Definition IMAGE_COOLDOWN : Q := 3.

(** ** Data *)

(** A card UID as [RFIDReader.read_card] returns it: a string or [None]. *)
Definition uid := option string.

(** Python truthiness of a UID ([if uid:]). *)
Definition truthy (u : uid) : bool :=
  match u with
  | Some s => negb (String.eqb s "")
  | None => false
  end.

(** A future of [image_executor] is known by its identity. *)
Abbreviation future := nat (only parsing).

(** The module-level globals that the functions read and write. *)
Record globals := Globals {
  door_open_alarm_triggered : bool;
  authorized_door_open : bool;
  rfid_queue : list (bool * uid);
  last_motion_time : Q;
  motion_count : Z;
  pir_callback_active : bool;
  last_authorized_open_time : Q;
  last_face_recognition_success : Q;
  face_result_queue : list string;
  face_recognition_pending : bool;
  face_recognition_start_time : Q;
  active_image_futures : gset future
}.

(** Assignment to one global. *)
Definition set_door_open_alarm_triggered (v : bool) (s : globals) : globals :=
  Globals v (authorized_door_open s) (rfid_queue s) (last_motion_time s)
    (motion_count s) (pir_callback_active s) (last_authorized_open_time s)
    (last_face_recognition_success s) (face_result_queue s)
    (face_recognition_pending s) (face_recognition_start_time s)
    (active_image_futures s).

Definition set_authorized_door_open (v : bool) (s : globals) : globals :=
  Globals (door_open_alarm_triggered s) v (rfid_queue s) (last_motion_time s)
    (motion_count s) (pir_callback_active s) (last_authorized_open_time s)
    (last_face_recognition_success s) (face_result_queue s)
    (face_recognition_pending s) (face_recognition_start_time s)
    (active_image_futures s).

Definition set_rfid_queue (v : list (bool * uid)) (s : globals) : globals :=
  Globals (door_open_alarm_triggered s) (authorized_door_open s) v
    (last_motion_time s) (motion_count s) (pir_callback_active s)
    (last_authorized_open_time s) (last_face_recognition_success s)
    (face_result_queue s) (face_recognition_pending s)
    (face_recognition_start_time s) (active_image_futures s).

Definition set_last_motion_time (v : Q) (s : globals) : globals :=
  Globals (door_open_alarm_triggered s) (authorized_door_open s) (rfid_queue s)
    v (motion_count s) (pir_callback_active s) (last_authorized_open_time s)
    (last_face_recognition_success s) (face_result_queue s)
    (face_recognition_pending s) (face_recognition_start_time s)
    (active_image_futures s).

Definition set_motion_count (v : Z) (s : globals) : globals :=
  Globals (door_open_alarm_triggered s) (authorized_door_open s) (rfid_queue s)
    (last_motion_time s) v (pir_callback_active s) (last_authorized_open_time s)
    (last_face_recognition_success s) (face_result_queue s)
    (face_recognition_pending s) (face_recognition_start_time s)
    (active_image_futures s).

Definition set_pir_callback_active (v : bool) (s : globals) : globals :=
  Globals (door_open_alarm_triggered s) (authorized_door_open s) (rfid_queue s)
    (last_motion_time s) (motion_count s) v (last_authorized_open_time s)
    (last_face_recognition_success s) (face_result_queue s)
    (face_recognition_pending s) (face_recognition_start_time s)
    (active_image_futures s).

Definition set_last_authorized_open_time (v : Q) (s : globals) : globals :=
  Globals (door_open_alarm_triggered s) (authorized_door_open s) (rfid_queue s)
    (last_motion_time s) (motion_count s) (pir_callback_active s) v
    (last_face_recognition_success s) (face_result_queue s)
    (face_recognition_pending s) (face_recognition_start_time s)
    (active_image_futures s).

Definition set_last_face_recognition_success (v : Q) (s : globals) : globals :=
  Globals (door_open_alarm_triggered s) (authorized_door_open s) (rfid_queue s)
    (last_motion_time s) (motion_count s) (pir_callback_active s)
    (last_authorized_open_time s) v (face_result_queue s)
    (face_recognition_pending s) (face_recognition_start_time s)
    (active_image_futures s).

Definition set_face_result_queue (v : list string) (s : globals) : globals :=
  Globals (door_open_alarm_triggered s) (authorized_door_open s) (rfid_queue s)
    (last_motion_time s) (motion_count s) (pir_callback_active s)
    (last_authorized_open_time s) (last_face_recognition_success s) v
    (face_recognition_pending s) (face_recognition_start_time s)
    (active_image_futures s).

Definition set_face_recognition_pending (v : bool) (s : globals) : globals :=
  Globals (door_open_alarm_triggered s) (authorized_door_open s) (rfid_queue s)
    (last_motion_time s) (motion_count s) (pir_callback_active s)
    (last_authorized_open_time s) (last_face_recognition_success s)
    (face_result_queue s) v (face_recognition_start_time s)
    (active_image_futures s).

Definition set_face_recognition_start_time (v : Q) (s : globals) : globals :=
  Globals (door_open_alarm_triggered s) (authorized_door_open s) (rfid_queue s)
    (last_motion_time s) (motion_count s) (pir_callback_active s)
    (last_authorized_open_time s) (last_face_recognition_success s)
    (face_result_queue s) (face_recognition_pending s) v
    (active_image_futures s).

Definition set_active_image_futures (v : gset future) (s : globals) : globals :=
  Globals (door_open_alarm_triggered s) (authorized_door_open s) (rfid_queue s)
    (last_motion_time s) (motion_count s) (pir_callback_active s)
    (last_authorized_open_time s) (last_face_recognition_success s)
    (face_result_queue s) (face_recognition_pending s)
    (face_recognition_start_time s) v.

(** The initial values of the globals (lines 31-56 of main.py). *)
Definition initial_globals : globals :=
  Globals false false [] 0 0%Z true 0 0 [] false 0 ∅.

(** The status kinds passed to [send_status_async]. *)
Inductive status := PHYSICAL_ALARM | AUTHORIZED_CARD | UNAUTHORIZED_CARD.

(** Calls made to the collaborators. *)
Inductive event :=
  | SendStatus (s : status)      (* send_status_async(s) *)
  | SetAngle (angle : Z)         (* servo.set_angle(angle) *)
  | Submit (f : future)          (* image_executor.submit(async_send_image) *)
  | ReadPin.                     (* pi.read(PIR_PIN) *)

(** A call, with the clock and the globals at the moment it is made. *)
Record entry := Entry {
  ev : event;
  ev_time : Q;
  ev_globals : globals
}.

Record world := World {
  vars : globals;
  clock : Q;                     (* what time.time() returns now *)
  last_image_attempt : Q;        (* local variable of main *)
  last_check_time : Q;           (* local variable of pir_watchdog_thread *)
  submitted : gset future;       (* futures created by the executor so far *)
  completed : gset future;       (* futures for which f.done() is True *)
  executor_open : bool;          (* submit raises once the pool is shut down *)
  trace : list entry
}.

Definition with_vars (f : globals -> globals) (w : world) : world :=
  World (f (vars w)) (clock w) (last_image_attempt w) (last_check_time w)
    (submitted w) (completed w) (executor_open w) (trace w).

Definition with_clock (t : Q) (w : world) : world :=
  World (vars w) t (last_image_attempt w) (last_check_time w)
    (submitted w) (completed w) (executor_open w) (trace w).

Definition with_last_image_attempt (t : Q) (w : world) : world :=
  World (vars w) (clock w) t (last_check_time w)
    (submitted w) (completed w) (executor_open w) (trace w).

Definition with_last_check_time (t : Q) (w : world) : world :=
  World (vars w) (clock w) (last_image_attempt w) t
    (submitted w) (completed w) (executor_open w) (trace w).

Definition with_submitted (s : gset future) (w : world) : world :=
  World (vars w) (clock w) (last_image_attempt w) (last_check_time w)
    s (completed w) (executor_open w) (trace w).

Definition with_completed (s : gset future) (w : world) : world :=
  World (vars w) (clock w) (last_image_attempt w) (last_check_time w)
    (submitted w) s (executor_open w) (trace w).

Definition with_trace (t : list entry) (w : world) : world :=
  World (vars w) (clock w) (last_image_attempt w) (last_check_time w)
    (submitted w) (completed w) (executor_open w) t.

(** The world when the program starts at clock [t0]. *)
Definition initial_world (t0 : Q) : world :=
  World initial_globals t0 0 t0 ∅ ∅ true [].

(** ** The monad of the controller's functions

    A computation returns [None] when it does not return to its caller:
    it is still running at the end of the observations it was given (the
    card-removal loop), or an exception that nothing catches left it (the
    direct read of the watchdog).  The world it returns then holds
    everything done so far. *)

Definition M (A : Type) : Type := world -> option A * world.

Definition ret {A} (a : A) : M A := fun w => (Some a, w).

Definition bind {A B} (m : M A) (k : A -> M B) : M B :=
  fun w => match m w with
           | (Some a, w1) => k a w1
           | (None, w1) => (None, w1)
           end.

Notation "x <- m ;; k" := (bind m (fun x => k))
  (at level 100, m at next level, right associativity).
Notation "m ;; k" := (bind m (fun _ => k))
  (at level 100, right associativity).

(** The loop has not left yet. *)
Definition still_running {A} : M A := fun w => (None, w).

(** An exception that the function does not catch. *)
Definition uncaught {A} : M A := fun w => (None, w).

(** Read a global. *)
Definition load {A} (f : globals -> A) : M A := fun w => (Some (f (vars w)), w).

(** Assign a global. *)
Definition store (f : globals -> globals) : M unit :=
  fun w => (Some tt, with_vars f w).

(** [time.time()] *)
Definition time_time : M Q := fun w => (Some (clock w), w).

(** [time.sleep(d)] *)
Definition time_sleep (d : Q) : M unit :=
  fun w => (Some tt, with_clock (clock w + d) w).

(** A call that blocks the caller for [d] seconds. *)
Definition blocks_for (d : Q) : M unit :=
  fun w => (Some tt, with_clock (clock w + d) w).

(** A call to a collaborator, appended to the trace. *)
Definition call (e : event) : M unit :=
  fun w => (Some tt, with_trace (trace w ++ [Entry e (clock w) (vars w)]) w).

(** [f.done()] for the futures of the pool. *)
Definition futures_done : M (gset future) := fun w => (Some (completed w), w).

(** [image_executor.submit(async_send_image)]: a new future, or [None] when
    the call raises. *)
Definition executor_submit : M (option future) :=
  fun w =>
    if executor_open w then
      let f := fresh (submitted w) in
      (Some (Some f),
       with_trace (trace w ++ [Entry (Submit f) (clock w) (vars w)])
         (with_submitted ({[f]} ∪ submitted w) w))
    else (Some None, w).

Definition run {A} (m : M A) (w : world) : world := snd (m w).
Definition result {A} (m : M A) (w : world) : option A := fst (m w).

(** ** Answers of the collaborators *)

(** [magnetic_sensor.read()]: [Some 1] closed, [Some 0] open, [None] when the
    read raises. *)
Definition door_reading := option Z.

(** [reader.read_card()]: a pair, or an exception. *)
Inductive card_read :=
  | ReadRaises
  | ReadCard (authorized : bool) (u : uid).

(** [reader.read_card()] as the main loop makes it while it waits for the card
    to be removed: the call blocks the loop for [wait_num / wait_den] seconds
    (up to the timeout of the reader), then answers. *)
Record blocking_read := BlockingRead {
  wait_num : N;
  wait_den : positive;
  answer : card_read
}.

Definition blocked (r : blocking_read) : Q := Z.of_N (wait_num r) # wait_den r.

(** [ultrasonic_sensor.get_distance()]: a distance, [None], or an exception. *)
Inductive distance_read :=
  | DistanceRaises
  | Distance (d : option Q).

(** ** The functions of main.py *)

(** [on_face_result]: the MQTT callback queues the decoded payload. *)
Definition on_face_result (payload : string) : M unit :=
  q <- load face_result_queue;;
  store (set_face_result_queue (q ++ [payload])).

(** [pir_motion_callback] (the body runs under [motion_lock]). *)
Definition pir_motion_callback : M unit :=
  current_time <- time_time;;
  store (set_last_motion_time current_time);;
  n <- load motion_count;;
  store (set_motion_count (n + 1)%Z);;
  store (set_pir_callback_active true).

(** One iteration of the loop of [pir_watchdog_thread].  [direct_read] is
    what [pi.read(PIR_PIN)] answers if the iteration calls it: a level, or
    [None] when the call raises; nothing catches that exception, so the
    iteration, and with it the thread, ends there. *)
Definition pir_watchdog_iteration (direct_read : option Z) : M unit :=
  current_time <- time_time;;
  last_check <- (fun w => (Some (last_check_time w), w));;
  (if QTime.gtb (current_time - last_check) 30 then
     active <- load pir_callback_active;;
     (if negb active then
        call ReadPin;;
        match direct_read with
        | Some pir_state => ret tt
        | None => uncaught
        end
      else ret tt);;
     store (set_pir_callback_active false);;
     (fun w => (Some tt, with_last_check_time current_time w))
   else ret tt);;
  time_sleep 5.

(** One iteration of the loop of [alarm_monitor_thread]. *)
Definition alarm_monitor_iteration (reading : door_reading) : M unit :=
  match reading with
  | None => ret tt                       (* except Exception: print *)
  | Some door_state =>
      current_time <- time_time;;
      if (door_state =? 0)%Z then
        authorized <- load authorized_door_open;;
        if negb authorized then
          last_open <- load last_authorized_open_time;;
          if QTime.gtb (current_time - last_open) AUTHORIZED_DOOR_OPEN_INTERVAL
          then
            triggered <- load door_open_alarm_triggered;;
            if negb triggered then
              call (SendStatus PHYSICAL_ALARM);;
              store (set_door_open_alarm_triggered true)
            else ret tt
          else ret tt
        else ret tt
      else if (door_state =? 1)%Z then
        store (set_door_open_alarm_triggered false);;
        store (set_authorized_door_open false)
      else ret tt
  end;;
  time_sleep 0.1.

(** One iteration of the loop of [rfid_reader_thread]. *)
Definition rfid_reader_iteration (r : card_read) : M unit :=
  match r with
  | ReadRaises => ret tt
  | ReadCard authorized u =>
      if truthy u then
        q <- load rfid_queue;;
        store (set_rfid_queue (q ++ [(authorized, u)]))
      else ret tt
  end.

(** The loop "wait until the card is removed" of [process_rfid_events]; the
    list holds what the successive [reader.read_card()] calls answer, and
    for how long each one blocks. *)
Fixpoint wait_card_removed (reads : list blocking_read) : M unit :=
  match reads with
  | [] => still_running
  | r :: rest =>
      blocks_for (blocked r);;
      match answer r with
      | ReadRaises => ret tt
      | ReadCard _ current_uid =>
          if negb (truthy current_uid) then ret tt
          else time_sleep 0.1;; wait_card_removed rest
      end
  end.

(** [process_rfid_events(reader, servo)] *)
Definition process_rfid_events (reads : list blocking_read) : M unit :=
  q <- load rfid_queue;;
  match q with
  | [] => ret tt                         (* except Empty: return *)
  | (authorized, u) :: rest =>
      store (set_rfid_queue rest);;
      if truthy u then
        (if authorized then
           call (SendStatus AUTHORIZED_CARD);;
           store (set_authorized_door_open true);;
           now <- time_time;;
           store (set_last_authorized_open_time now);;
           call (SetAngle 180);;
           time_sleep 2;;
           call (SetAngle 0);;
           wait_card_removed reads
         else
           call (SendStatus UNAUTHORIZED_CARD));;
        time_sleep 0.5
      else ret tt
  end.

(** [check_motion_and_distance()] *)
Definition check_motion_and_distance (dist : distance_read) : M bool :=
  current_time <- time_time;;
  last_motion <- load last_motion_time;;
  let motion_recent := QTime.leb (current_time - last_motion) 5 in
  if motion_recent then
    match dist with
    | DistanceRaises => ret false
    | Distance None => ret false
    | Distance (Some distance) =>
        if QTime.leb distance 50 then ret true else ret false
    end
  else ret false.

(** [start_face_recognition()] *)
Definition start_face_recognition : M bool :=
  active <- load active_image_futures;;
  finished <- futures_done;;
  let active := filter (fun f => f ∉ finished) active in
  store (set_active_image_futures active);;
  if (2 <=? size active)%nat then ret false
  else
    submission <- executor_submit;;
    match submission with
    | Some f =>
        store (set_active_image_futures ({[f]} ∪ active));;
        store (set_face_recognition_pending true);;
        now <- time_time;;
        store (set_face_recognition_start_time now);;
        ret true
    | None => ret false
    end.

(** [check_face_recognition_result(servo)] *)
Definition check_face_recognition_result : M bool :=
  pending <- load face_recognition_pending;;
  if negb pending then ret false
  else
    current_time <- time_time;;
    active <- load active_image_futures;;
    finished <- futures_done;;
    let completed_futures := filter (fun f => f ∈ finished) active in
    store (set_active_image_futures (active ∖ completed_futures));;
    start_time <- load face_recognition_start_time;;
    if QTime.gtb (current_time - start_time) FACE_RECOGNITION_TIMEOUT then
      store (set_face_recognition_pending false);;
      ret false
    else
      q <- load face_result_queue;;
      match q with
      | [] => ret false                  (* except Empty *)
      | result :: rest =>
          store (set_face_result_queue rest);;
          store (set_face_recognition_pending false);;
          if negb (String.eqb result "unknown") then
            store (set_authorized_door_open true);;
            now <- time_time;;
            store (set_last_authorized_open_time now);;
            now <- time_time;;
            store (set_last_face_recognition_success now);;
            call (SendStatus AUTHORIZED_CARD);;
            call (SetAngle 180);;
            time_sleep 2;;
            call (SetAngle 0);;
            ret true
          else ret false
      end.

(** The condition of the main loop that decides whether a new recognition
    attempt is started (lines 374-378 of main.py): the guard on the pending
    flag and the two cooldowns, then [check_motion_and_distance()]. *)
Definition proximity_gate (current_time : Q) (dist : distance_read) : M bool :=
  pending <- load face_recognition_pending;;
  last_attempt <- (fun w => (Some (last_image_attempt w), w));;
  last_success <- load last_face_recognition_success;;
  if negb pending
     && QTime.gtb (current_time - last_attempt) IMAGE_COOLDOWN
     && QTime.gtb (current_time - last_success) FACE_RECOGNITION_COOLDOWN
  then check_motion_and_distance dist
  else ret false.

(** One iteration of the [while True] loop of [main]. *)
Definition main_loop_iteration (reads : list blocking_read)
    (dist : distance_read)
  : M unit :=
  current_time <- time_time;;
  process_rfid_events reads;;
  check_face_recognition_result;;
  go <- proximity_gate current_time dist;;
  (if go then
     (fun w => (Some tt, with_last_image_attempt current_time w));;
     start_face_recognition;;
     ret tt
   else ret tt);;
  (if (QTime.to_int current_time mod 30 =? 0)%Z then time_sleep 1 else ret tt);;
  time_sleep 0.05.

(** ** Executions

    An execution is a sequence of steps, each one a call of a function of the
    module by the thread that owns it, or time passing.  The sequences
    include more than the program can do (a thread that an exception ended
    polls no more), which only makes a property of all executions
    stronger. *)
Inductive action :=
  | Elapse (n d : positive)                 (* n/d seconds pass *)
  | PirMotion                               (* pir_motion_callback *)
  | WatchdogPoll (direct_read : option Z)   (* pir_watchdog_thread *)
  | AlarmPoll (reading : door_reading)      (* alarm_monitor_thread *)
  | RfidRead (r : card_read)                (* rfid_reader_thread *)
  | FaceResult (payload : string)           (* on_face_result *)
  | ImageDone (f : future)                  (* a worker ends async_send_image *)
  | ProcessRfid (reads : list blocking_read)   (* process_rfid_events *)
  | CheckFace                               (* check_face_recognition_result *)
  | StartFace                               (* start_face_recognition *)
  | MainIteration (reads : list blocking_read) (dist : distance_read).

(** A worker finishes the task of a future that was submitted. *)
Definition image_done (f : future) : M unit :=
  fun w =>
    if decide (f ∈ submitted w)
    then (Some tt, with_completed ({[f]} ∪ completed w) w)
    else (Some tt, w).

Definition perform (a : action) : M unit :=
  match a with
  | Elapse n d => time_sleep (QTime.span n d)
  | PirMotion => pir_motion_callback
  | WatchdogPoll direct_read => pir_watchdog_iteration direct_read
  | AlarmPoll reading => alarm_monitor_iteration reading
  | RfidRead r => rfid_reader_iteration r
  | FaceResult payload => on_face_result payload
  | ImageDone f => image_done f
  | ProcessRfid reads => process_rfid_events reads
  | CheckFace => check_face_recognition_result;; ret tt
  | StartFace => start_face_recognition;; ret tt
  | MainIteration reads dist => main_loop_iteration reads dist
  end.

Definition exec (a : action) (w : world) : world := run (perform a) w.

Definition exec_all (acts : list action) (w : world) : world :=
  fold_left (fun w a => exec a w) acts w.

(** ** Observations on worlds, traces and executions *)

Definition status_eqb (a b : status) : bool :=
  match a, b with
  | PHYSICAL_ALARM, PHYSICAL_ALARM
  | AUTHORIZED_CARD, AUTHORIZED_CARD
  | UNAUTHORIZED_CARD, UNAUTHORIZED_CARD => true
  | _, _ => false
  end.

(** How many times [send_status_async(s)] was called. *)
Fixpoint count_status (s : status) (tr : list entry) : nat :=
  match tr with
  | [] => 0%nat
  | e :: tr =>
      match ev e with
      | SendStatus s' =>
          if status_eqb s s' then S (count_status s tr) else count_status s tr
      | _ => count_status s tr
      end
  end.

(** The servo commands of a trace, in order. *)
Fixpoint servo_commands (tr : list entry) : list Z :=
  match tr with
  | [] => []
  | e :: tr =>
      match ev e with
      | SetAngle a => a :: servo_commands tr
      | _ => servo_commands tr
      end
  end.

Definition is_submit (e : entry) : bool :=
  match ev e with Submit _ => true | _ => false end.

(** The capture tasks in flight: submitted to the pool and not finished. *)
Definition in_flight (w : world) : gset future := submitted w ∖ completed w.

(** The futures of [active_image_futures] that are not done. *)
Definition active_pending (w : world) : gset future :=
  filter (fun f => f ∉ completed w) (active_image_futures (vars w)).

(** The alarm monitor reads the door as closed in this step. *)
Definition reads_closed (a : action) : bool :=
  match a with
  | AlarmPoll (Some door_state) => (door_state =? 1)%Z
  | _ => false
  end.


(** The entries that an execution appended to the trace of [w]. *)
Definition appended (w w' : world) : list entry :=
  drop (length (trace w)) (trace w').

(** A read that makes the card-removal loop leave. *)
Definition ends_wait (r : blocking_read) : bool :=
  match answer r with
  | ReadRaises => true
  | ReadCard _ u => negb (truthy u)
  end.

(** [m] relates every world to the world it leaves, by [R]. *)
Definition respects {A} (R : relation world) (m : M A) : Prop :=
  ∀ w, R w (run m w).

(** *** Frame relations between the world before and after a step *)

(** The alarm flag and the number of alarm notifications are as before. *)
Definition alarm_untouched (w w' : world) : Prop :=
  door_open_alarm_triggered (vars w') = door_open_alarm_triggered (vars w) ∧
  count_status PHYSICAL_ALARM (trace w') = count_status PHYSICAL_ALARM (trace w).

(** The clock does not go back. *)
Definition clock_advances (w w' : world) : Prop := clock w <= clock w'.

(** The motion record is as before. *)
Definition motion_untouched (w w' : world) : Prop :=
  last_motion_time (vars w') = last_motion_time (vars w) ∧
  motion_count (vars w') = motion_count (vars w).

(** The condition under which a poll of the alarm monitor raises the alarm:
    the door reads open (0), the authorized flag is false and more than
    [AUTHORIZED_DOOR_OPEN_INTERVAL] seconds passed since the last
    authorization. *)
Definition intrusion (w : world) (reading : door_reading) : Prop :=
  reading = Some 0%Z ∧
  authorized_door_open (vars w) = false ∧
  AUTHORIZED_DOOR_OPEN_INTERVAL <
    clock w - last_authorized_open_time (vars w).

(** The trace entry of the alarm notification sent from [w]. *)
Definition alarm_entry (w : world) : entry :=
  Entry (SendStatus PHYSICAL_ALARM) (clock w) (vars w).

(** The number of alarm notifications so far, plus one while the alarm flag
    is down: what an open door can still add to the notifications. *)
Definition alarm_potential (w : world) : nat :=
  (count_status PHYSICAL_ALARM (trace w)
   + (if door_open_alarm_triggered (vars w) then 0 else 1))%nat.

Definition potential_kept (w w' : world) : Prop :=
  alarm_potential w' = alarm_potential w.

(** The globals after [process_rfid_events] took an authorized card from the
    queue at clock [now]: before and after the window is opened. *)
Definition card_taken (rest : list (bool * uid)) (s : globals) : globals :=
  set_rfid_queue rest s.

Definition window_opened (now : Q) (s : globals) : globals :=
  set_last_authorized_open_time now (set_authorized_door_open true s).

(** The globals after a poll that times the request out: the finished
    futures are dropped from the tracked set, the pending flag is cleared. *)
Definition reaped (finished : gset future) (s : globals) : globals :=
  set_active_image_futures
    (active_image_futures s
     ∖ filter (fun f => f ∈ finished) (active_image_futures s)) s.

Definition timed_out (finished : gset future) (s : globals) : globals :=
  set_face_recognition_pending false (reaped finished s).

(** The globals after a poll that finds a recognized face at clock [now]. *)
Definition recognized (finished : gset future) (rest : list string) (now : Q)
    (s : globals) : globals :=
  set_last_face_recognition_success now
    (set_last_authorized_open_time now
       (set_authorized_door_open true
          (set_face_recognition_pending false
             (set_face_result_queue rest (reaped finished s))))).

(** The invariant of the pool: every task in flight is tracked, and at most
    two tracked futures are not done. *)
Definition pool_ok (w : world) : Prop :=
  in_flight w ⊆ active_image_futures (vars w) ∧ (size (active_pending w) ≤ 2)%nat.

Definition pool_kept (w w' : world) : Prop := pool_ok w → pool_ok w'.

(** A step that starts no recognition attempt and leaves the cooldown clock
    alone. *)
Definition no_attempt (w w' : world) : Prop :=
  clock w <= clock w' ∧
  last_face_recognition_success (vars w') =
    last_face_recognition_success (vars w) ∧
  ∃ new, trace w' = trace w ++ new ∧ Forall (fun e => is_submit e = false) new.


(** The cooldown: from a world whose cooldown clock is not in the future,
    the cooldown clock never goes back and stays in the past, and every task
    submitted comes more than [FACE_RECOGNITION_COOLDOWN] seconds after it. *)
Definition cooldown_kept (w w' : world) : Prop :=
  last_face_recognition_success (vars w) <= clock w →
  clock w <= clock w' ∧
  last_face_recognition_success (vars w)
    <= last_face_recognition_success (vars w') ∧
  last_face_recognition_success (vars w') <= clock w' ∧
  ∃ new, trace w' = trace w ++ new ∧
    Forall (fun e => is_submit e = true →
              last_face_recognition_success (vars w)
              + FACE_RECOGNITION_COOLDOWN < ev_time e) new.

(** The motion record is never ahead of the clock and never goes back. *)
Definition motion_ordered (w w' : world) : Prop :=
  last_motion_time (vars w) <= clock w →
  last_motion_time (vars w) <= last_motion_time (vars w') ∧
  last_motion_time (vars w') <= clock w'.

(** Every queued card event carries a UID that is truthy. *)
Definition queue_ok (w : world) : Prop :=
  Forall (fun e => truthy (snd e) = true) (rfid_queue (vars w)).

Definition queue_kept (w w' : world) : Prop := queue_ok w → queue_ok w'.

(** ** Example executions, started at clock 100 *)

Module Scenario.

(** A reader that reports no card: the card-removal loop leaves at once. *)
Definition card_removed : list blocking_read :=
  [BlockingRead 0 1 (ReadCard false None)].

(** An authorized card is read, somebody moves in front of the door, and the
    main loop runs once with a distance of 30 cm. *)
Definition card_then_approach : list action :=
  [ RfidRead (ReadCard true (Some "0C00201B99"%string));
    PirMotion;
    MainIteration card_removed (Distance (Some 30)) ].

(** Somebody approaches and a recognition attempt starts; six seconds pass
    without a result and the next iteration times the request out. *)
Definition attempt_times_out : list action :=
  [ PirMotion;
    MainIteration card_removed (Distance (Some 30));
    Elapse 6 1;
    MainIteration card_removed DistanceRaises ].

(** The result of the first attempt arrives late; the main loop polls once
    with nobody at the door, then somebody approaches, a second attempt
    starts, and the main loop polls again. *)
Definition late_result_then_approach : list action :=
  [ FaceResult "alice"%string;
    MainIteration card_removed DistanceRaises;
    PirMotion;
    MainIteration card_removed (Distance (Some 30));
    MainIteration card_removed DistanceRaises ].

(** Two attempts whose capture tasks never finish, each timed out. *)
Definition two_stuck_captures : list action :=
  [ PirMotion;
    MainIteration card_removed (Distance (Some 30));
    Elapse 6 1;
    PirMotion;
    MainIteration card_removed (Distance (Some 30));
    Elapse 6 1 ].


(** The door is held open for three polls of the alarm monitor. *)
Definition door_held_open : list action :=
  [ AlarmPoll (Some 0%Z); AlarmPoll (Some 0%Z); AlarmPoll (Some 0%Z) ].



Definition start : world := initial_world 100.

End Scenario.

(** ** Further observations *)

(** The card events that a sequence of reads of [rfid_reader_thread] puts in
    the queue: the reads that answer with a truthy UID, in order. *)
Fixpoint queued_reads (rs : list card_read) : list (bool * uid) :=
  match rs with
  | [] => []
  | ReadCard authorized u :: rs =>
      if truthy u then (authorized, u) :: queued_reads rs else queued_reads rs
  | ReadRaises :: rs => queued_reads rs
  end.

(** For how long a sequence of card reads blocks the main loop. *)
Fixpoint total_blocked (reads : list blocking_read) : Q :=
  match reads with
  | [] => 0
  | r :: reads => blocked r + total_blocked reads
  end.

(** How many capture tasks a piece of trace submits. *)
Fixpoint count_submits (tr : list entry) : nat :=
  match tr with
  | [] => 0%nat
  | e :: tr => if is_submit e then S (count_submits tr) else count_submits tr
  end.


(** How many times the motion callback runs in an execution. *)
Fixpoint count_motion (acts : list action) : nat :=
  match acts with
  | [] => 0%nat
  | PirMotion :: acts => S (count_motion acts)
  | _ :: acts => count_motion acts
  end.

(** [k] door cycles: open (180), then close (0). *)
Fixpoint door_cycles (k : nat) : list Z :=
  match k with
  | O => []
  | S k => 180%Z :: 0%Z :: door_cycles k
  end.

(** The calls that [process_rfid_events] makes for the event at the head of
    the queue, taken at clock [now] with globals [s]. *)
Definition card_calls (now : Q) (s : globals) : list entry :=
  match rfid_queue s with
  | [] => []
  | (authorized, u) :: rest =>
      if truthy u then
        if authorized then
          [ Entry (SendStatus AUTHORIZED_CARD) now (card_taken rest s);
            Entry (SetAngle 180) now (window_opened now (card_taken rest s));
            Entry (SetAngle 0) (now + 2)
              (window_opened now (card_taken rest s)) ]
        else [ Entry (SendStatus UNAUTHORIZED_CARD) now (card_taken rest s) ]
      else []
  end.

(** The step is one of the reader thread. *)
Definition is_rfid_read (a : action) : bool :=
  match a with RfidRead _ => true | _ => false end.

(** The authorized flag, once up, is still up and no alarm notification was
    added. *)
Definition authorized_stays (w w' : world) : Prop :=
  authorized_door_open (vars w) = true →
  authorized_door_open (vars w') = true ∧
  count_status PHYSICAL_ALARM (trace w') = count_status PHYSICAL_ALARM (trace w).

(** The step is a poll of the alarm monitor. *)
Definition is_alarm_poll (a : action) : bool :=
  match a with AlarmPoll _ => true | _ => false end.

(** The servo made [k] whole door cycles more, and as many AUTHORIZED_CARD
    notifications were sent. *)
Definition door_cycled (w w' : world) : Prop :=
  ∃ k, servo_commands (trace w') = servo_commands (trace w) ++ door_cycles k ∧
       count_status AUTHORIZED_CARD (trace w')
       = (count_status AUTHORIZED_CARD (trace w) + k)%nat.

(** The bookkeeping of the pool is exact: the tracked futures were all
    submitted, every task in flight is tracked, at most two are not done,
    and the executor is open. *)
Definition pool_exact (w : world) : Prop :=
  active_image_futures (vars w) ⊆ submitted w ∧ pool_ok w ∧
  executor_open w = true.

Definition pool_exact_kept (w w' : world) : Prop := pool_exact w → pool_exact w'.

(** The two sleeps that end an iteration of the main loop which started at
    clock [current_time]: the second of the status line, every thirty
    seconds, and the pause of the loop. *)
Definition main_loop_tail (current_time : Q) : M unit :=
  (if (QTime.to_int current_time mod 30 =? 0)%Z then time_sleep 1 else ret ());;
  time_sleep 0.05.

(** The result queue is as before, and so are the servo commands and the
    AUTHORIZED_CARD notifications of the trace. *)
Definition results_untouched (w w' : world) : Prop :=
  face_result_queue (vars w') = face_result_queue (vars w) ∧
  servo_commands (trace w') = servo_commands (trace w) ∧
  count_status AUTHORIZED_CARD (trace w')
  = count_status AUTHORIZED_CARD (trace w).

(** The local variable [last_image_attempt] is as before and no capture task
    was submitted. *)
Definition attempt_untouched (w w' : world) : Prop :=
  last_image_attempt w' = last_image_attempt w ∧
  ∃ new, trace w' = trace w ++ new ∧ count_submits new = 0%nat.

(** The watchdog's check time is as before. *)
Definition watchdog_untouched (w w' : world) : Prop :=
  last_check_time w' = last_check_time w.

(** From a check time that is not in the future: the clock does not go back,
    the check time stays in the past, and it either is as before or moved
    by more than thirty seconds. *)
Definition watchdog_paced (w w' : world) : Prop :=
  last_check_time w <= clock w →
  clock w <= clock w' ∧
  last_check_time w' <= clock w' ∧
  (last_check_time w' = last_check_time w ∨
   last_check_time w + 30 < last_check_time w').

(** The step is one of the watchdog. *)
Definition is_watchdog_poll (a : action) : bool :=
  match a with WatchdogPoll _ => true | _ => false end.

(** A time stamp either is as before or was set, during the step, to the
    clock of that moment. *)
Definition stamp_moves (stamp : world → Q) (w w' : world) : Prop :=
  stamp w' = stamp w ∨ (clock w <= stamp w' ∧ stamp w' <= clock w').

(** What a step does to the clock and to the three time stamps of the door
    logic. *)
Definition stamps_step (w w' : world) : Prop :=
  clock w <= clock w' ∧
  stamp_moves (fun w => last_authorized_open_time (vars w)) w w' ∧
  stamp_moves (fun w => last_face_recognition_success (vars w)) w w' ∧
  stamp_moves (fun w => face_recognition_start_time (vars w)) w w'.

(** The globals that [process_rfid_events] leaves. *)
Definition card_served (now : Q) (s : globals) : globals :=
  match rfid_queue s with
  | [] => s
  | (authorized, u) :: rest =>
      if truthy u && authorized
      then window_opened now (card_taken rest s)
      else card_taken rest s
  end.

(** * Verification *)

(** ** Comparisons *)

Lemma gtb_true x y : QTime.gtb x y = true <-> y < x.
Proof.
  unfold QTime.gtb. rewrite negb_true_iff, <- not_true_iff_false, Qle_bool_iff.
  split; [apply Qnot_le_lt | apply Qlt_not_le].
Qed.

Lemma gtb_false x y : QTime.gtb x y = false <-> x <= y.
Proof. unfold QTime.gtb. by rewrite negb_false_iff, Qle_bool_iff. Qed.

Lemma leb_true x y : QTime.leb x y = true <-> x <= y.
Proof. apply Qle_bool_iff. Qed.

Lemma leb_false x y : QTime.leb x y = false <-> y < x.
Proof.
  unfold QTime.leb. rewrite <- not_true_iff_false, Qle_bool_iff.
  split; [apply Qnot_le_lt | apply Qlt_not_le].
Qed.

Lemma span_pos n d : 0 < QTime.span n d.
Proof. reflexivity. Qed.

(** ** Running the monad *)

Ltac mstep :=
  unfold bind, load, store, ret, time_time, time_sleep, blocks_for, call,
    futures_done, still_running, uncaught;
  cbn -[QTime.gtb QTime.leb Nat.leb].

Lemma with_clock_same w : with_clock (clock w) w = w.
Proof. by destruct w. Qed.

Lemma blocked_nonneg r : 0 <= blocked r.
Proof. unfold blocked, Qle. cbn. lia. Qed.

Lemma run_bind {A B} (m : M A) (k : A → M B) w :
  run (bind m k) w =
  match result m w with
  | Some a => run (k a) (run m w)
  | None => run m w
  end.
Proof. unfold run, result, bind. by destruct (m w) as [[a|] w1]. Qed.

Lemma result_bind {A B} (m : M A) (k : A → M B) w :
  result (bind m k) w =
  match result m w with
  | Some a => result (k a) (run m w)
  | None => None
  end.
Proof. unfold run, result, bind. by destruct (m w) as [[a|] w1]. Qed.

Section Respects.
Context (R : relation world) `{!PreOrder R}.

Lemma respects_ret {A} (a : A) : respects R (ret a).
Proof. intros w. reflexivity. Qed.

Lemma respects_bind {A B} (m : M A) (k : A → M B) :
  respects R m → (∀ a, respects R (k a)) → respects R (bind m k).
Proof.
  intros Hm Hk w. rewrite run_bind. destruct (result m w) as [a|]; [|apply Hm].
  transitivity (run m w); [apply Hm | apply Hk].
Qed.

Lemma respects_load {A} (f : globals → A) : respects R (load f).
Proof. intros w. reflexivity. Qed.

Lemma respects_time_time : respects R time_time.
Proof. intros w. reflexivity. Qed.

Lemma respects_futures_done : respects R futures_done.
Proof. intros w. reflexivity. Qed.

Lemma respects_still_running {A} : respects R (@still_running A).
Proof. intros w. reflexivity. Qed.

Lemma respects_uncaught {A} : respects R (@uncaught A).
Proof. intros w. reflexivity. Qed.

Lemma respects_wait_card_removed reads :
  (∀ d, 0 <= d → respects R (blocks_for d)) →
  respects R (time_sleep 0.1) → respects R (wait_card_removed reads).
Proof.
  intros Hb Hs. induction reads as [|r reads IH]; cbn [wait_card_removed].
  - apply respects_still_running.
  - apply respects_bind; [apply Hb, blocked_nonneg|]. intros _.
    destruct (answer r) as [|a u]; [apply respects_ret|].
    destruct (negb (truthy u)); [apply respects_ret|].
    apply respects_bind; auto.
Qed.
End Respects.

Lemma count_status_app s tr1 tr2 :
  count_status s (tr1 ++ tr2) = (count_status s tr1 + count_status s tr2)%nat.
Proof.
  induction tr1 as [|e tr1 IH]; cbn; [done|].
  destruct (ev e) as [s'| | |]; try done. destruct (status_eqb s s'); cbn; lia.
Qed.

#[local] Instance alarm_untouched_preorder : PreOrder alarm_untouched.
Proof.
  split.
  - by intros w.
  - intros w1 w2 w3 [H1 H2] [H3 H4]. split; congruence.
Qed.

#[local] Instance clock_advances_preorder : PreOrder clock_advances.
Proof.
  split.
  - intros w. unfold clock_advances. lra.
  - intros w1 w2 w3. unfold clock_advances. lra.
Qed.

#[local] Instance motion_untouched_preorder : PreOrder motion_untouched.
Proof.
  split.
  - by intros w.
  - intros w1 w2 w3 [H1 H2] [H3 H4]. split; congruence.
Qed.

Create HintDb frame.
Create HintDb controller.

(** Structural steps of a frame proof; [prim] closes the primitive steps
    once they are evaluated. *)
Ltac respects_with prim :=
  repeat first
    [ solve [ auto with frame ]
    | apply respects_ret; apply _
    | apply respects_load; apply _
    | apply respects_time_time; apply _
    | apply respects_futures_done; apply _
    | apply respects_still_running; apply _
    | apply respects_uncaught; apply _
    | apply respects_bind; [ apply _ | | intros ? ]
    | apply respects_wait_card_removed; [ apply _ | intros ? ? | ]
    | progress cbv zeta
    | match goal with
      | |- respects _ (if ?b then _ else _) => destruct b
      | |- respects _ (match ?x with _ => _ end) => destruct x
      end
    | solve [ intros [? ? ? ? ? ? ? ?]; unfold run, executor_submit; cbn -[QTime.gtb QTime.leb];
              prim ] ].

Ltac alarm_prim :=
  unfold alarm_untouched; cbn; repeat case_match; cbn;
  rewrite ?count_status_app; cbn; split; (done || lia).



#[local] Hint Unfold perform on_face_result pir_motion_callback
  pir_watchdog_iteration alarm_monitor_iteration rfid_reader_iteration
  process_rfid_events check_motion_and_distance start_face_recognition
  check_face_recognition_result proximity_gate main_loop_iteration
  image_done : controller.

(** Every step but a poll of the alarm monitor leaves the alarm alone. *)
Lemma perform_alarm_untouched a :
  (∀ reading, a ≠ AlarmPoll reading) → respects alarm_untouched (perform a).
Proof.
  intros Ha. destruct a; try (by edestruct Ha); clear Ha;
    autounfold with controller; respects_with alarm_prim.
Qed.

Ltac clock_prim :=
  unfold clock_advances, QTime.span; cbn; repeat case_match; cbn;
  first [ lra | apply Qle_minus_iff; ring_simplify; done ].

(** The clock never goes back. *)
Lemma perform_clock_advances a : respects clock_advances (perform a).
Proof. destruct a; autounfold with controller; respects_with clock_prim. Qed.

Ltac motion_prim :=
  unfold motion_untouched; cbn; repeat case_match; by cbn.

(** Only the motion callback writes the motion record. *)
Lemma perform_motion_untouched a :
  a ≠ PirMotion → respects motion_untouched (perform a).
Proof.
  intros Ha. destruct a; try done; clear Ha;
    autounfold with controller; respects_with motion_prim.
Qed.

(** Executions: a preorder kept by every step is kept by the execution. *)
Lemma exec_all_app acts1 acts2 w :
  exec_all (acts1 ++ acts2) w = exec_all acts2 (exec_all acts1 w).
Proof. apply fold_left_app. Qed.

Lemma exec_all_respects (R : relation world) `{!PreOrder R} (P : action → Prop) :
  (∀ a, P a → respects R (perform a)) →
  ∀ acts, Forall P acts → ∀ w, R w (exec_all acts w).
Proof.
  intros HR acts Hacts. induction Hacts as [|a acts Ha _ IH]; intros w; cbn.
  - reflexivity.
  - transitivity (exec a w); [by apply HR | apply IH].
Qed.

(** ** The alarm monitor *)

Lemma alarm_poll_intrusion w reading :
  intrusion w reading →
  door_open_alarm_triggered (vars w) = false →
  run (alarm_monitor_iteration reading) w =
  with_clock (clock w + 0.1)
    (with_vars (set_door_open_alarm_triggered true)
       (with_trace (trace w ++ [alarm_entry w]) w)).
Proof.
  intros (-> & Hauth & Hlate) Htrig. apply gtb_true in Hlate.
  unfold alarm_monitor_iteration, run. mstep.
  rewrite Hauth. mstep. rewrite Hlate. mstep. by rewrite Htrig.
Qed.

Lemma alarm_poll_quiet w reading :
  ¬ intrusion w reading →
  (∀ door_state, reading = Some door_state → door_state ≠ 1%Z) →
  run (alarm_monitor_iteration reading) w = with_clock (clock w + 0.1) w.
Proof.
  intros Hno Hopen. unfold alarm_monitor_iteration, run.
  destruct reading as [door_state|]; [|done]. mstep.
  destruct (Z.eqb_spec door_state 0) as [->|Hne0]; mstep.
  - destruct (authorized_door_open (vars w)) eqn:Hauth; mstep; [done|].
    destruct (QTime.gtb _ _) eqn:Hlate; mstep; [|done].
    destruct Hno. apply gtb_true in Hlate. by repeat split.
  - destruct (Z.eqb_spec door_state 1) as [->|Hne1]; mstep; [|done].
    by destruct (Hopen 1%Z).
Qed.

Lemma alarm_poll_already_triggered w reading :
  door_open_alarm_triggered (vars w) = true →
  (∀ door_state, reading = Some door_state → door_state ≠ 1%Z) →
  run (alarm_monitor_iteration reading) w = with_clock (clock w + 0.1) w.
Proof.
  intros Htrig Hopen. unfold alarm_monitor_iteration, run.
  destruct reading as [door_state|]; [|done]. mstep.
  destruct (Z.eqb_spec door_state 0) as [->|Hne0]; mstep.
  - destruct (authorized_door_open (vars w)); mstep; [done|].
    destruct (QTime.gtb _ _); mstep; [|done]. by rewrite Htrig.
  - destruct (Z.eqb_spec door_state 1) as [->|Hne1]; mstep; [|done].
    by destruct (Hopen 1%Z).
Qed.

Lemma alarm_poll_closed w :
  run (alarm_monitor_iteration (Some 1%Z)) w =
  with_clock (clock w + 0.1)
    (with_vars (fun s => set_authorized_door_open false
                           (set_door_open_alarm_triggered false s)) w).
Proof. done. Qed.

Lemma intrusion_dec w reading : intrusion w reading ∨ ¬ intrusion w reading.
Proof.
  unfold intrusion.
  destruct reading as [door_state|]; [|right; by intros [? _]].
  destruct (Z.eqb_spec door_state 0) as [->|]; [|right; intros [? _]; congruence].
  destruct (authorized_door_open (vars w)); [right; by intros (_ & ? & _)|].
  destruct (QTime.gtb (clock w - last_authorized_open_time (vars w))
              AUTHORIZED_DOOR_OPEN_INTERVAL) eqn:E.
  - left. apply gtb_true in E. done.
  - right. intros (_ & _ & H). apply gtb_true in H. congruence.
Qed.

(** The potential that bounds the notifications of an open span: the number
    of alarm notifications so far, plus one while the alarm is not raised. *)
Lemma alarm_poll_potential w reading :
  reads_closed (AlarmPoll reading) = false →
  let w' := run (alarm_monitor_iteration reading) w in
  (count_status PHYSICAL_ALARM (trace w')
   + (if door_open_alarm_triggered (vars w') then 0 else 1) =
   count_status PHYSICAL_ALARM (trace w)
   + (if door_open_alarm_triggered (vars w) then 0 else 1))%nat.
Proof.
  intros Hopen.
  assert (∀ door_state, reading = Some door_state → door_state ≠ 1%Z) as Hne.
  { intros door_state -> ->. done. }
  cbv zeta. destruct (door_open_alarm_triggered (vars w)) eqn:Htrig.
  - rewrite alarm_poll_already_triggered by done. cbn. by rewrite Htrig.
  - destruct (intrusion_dec w reading) as [Hi|Hi].
    + rewrite alarm_poll_intrusion by done. cbn.
      rewrite count_status_app. cbn. lia.
    + rewrite alarm_poll_quiet by done. cbn. by rewrite Htrig.
Qed.

#[local] Instance potential_kept_preorder : PreOrder potential_kept.
Proof.
  split.
  - by intros w.
  - intros w1 w2 w3. unfold potential_kept. congruence.
Qed.

Lemma perform_potential_kept a :
  reads_closed a = false → respects potential_kept (perform a).
Proof.
  intros Hopen w.
  assert ((∃ reading, a = AlarmPoll reading) ∨ ∀ reading, a ≠ AlarmPoll reading)
    as [[reading ->]|Hother] by (destruct a; eauto).
  - by apply alarm_poll_potential.
  - destruct (perform_alarm_untouched a Hother w) as [Hflag Hcount].
    unfold potential_kept, alarm_potential. by rewrite Hflag, Hcount.
Qed.

Lemma open_span_potential acts w :
  Forall (fun a => reads_closed a = false) acts →
  alarm_potential (exec_all acts w) = alarm_potential w.
Proof.
  intros Hacts.
  by apply (exec_all_respects potential_kept
              (fun a => reads_closed a = false) perform_potential_kept).
Qed.

(** ** The card processor *)

Lemma wait_card_removed_cons r rest w :
  wait_card_removed (r :: rest) w =
  match answer r with
  | ReadRaises => (Some (), with_clock (clock w + blocked r) w)
  | ReadCard _ u =>
      if negb (truthy u) then (Some (), with_clock (clock w + blocked r) w)
      else wait_card_removed rest (with_clock (clock w + blocked r + 0.1) w)
  end.
Proof.
  cbn [wait_card_removed]. unfold bind at 1, blocks_for.
  destruct (answer r) as [|a u]; [done|].
  by destruct (negb (truthy u)).
Qed.

Lemma wait_card_removed_effect reads w :
  ∃ r t, clock w <= t ∧ wait_card_removed reads w = (r, with_clock t w).
Proof.
  revert w. induction reads as [|p reads IH]; intros w.
  - exists None, (clock w). split; [lra|]. cbn. unfold still_running.
    by rewrite with_clock_same.
  - rewrite wait_card_removed_cons. pose proof (blocked_nonneg p) as Hp.
    destruct (answer p) as [|a u].
    { exists (Some ()), (clock w + blocked p). split; [lra|done]. }
    destruct (negb (truthy u)).
    { exists (Some ()), (clock w + blocked p). split; [lra|done]. }
    destruct (IH (with_clock (clock w + blocked p + 0.1) w))
      as (r & t & Ht & ->).
    exists r, t. cbn in Ht. split; [lra|]. by destruct w.
Qed.

Lemma wait_card_removed_leaves reads w :
  Exists (fun r => ends_wait r = true) reads →
  result (wait_card_removed reads) w = Some ().
Proof.
  intros Hex. revert w. induction Hex as [r reads Hr|r reads _ IH]; intros w;
    unfold result; rewrite wait_card_removed_cons; unfold ends_wait in *.
  - destruct (answer r) as [|a u]; [done|]. by rewrite Hr.
  - destruct (answer r) as [|a u]; [done|].
    destruct (negb (truthy u)); [done|]. apply IH.
Qed.

Lemma process_rfid_events_authorized w u rest reads :
  rfid_queue (vars w) = (true, u) :: rest →
  truthy u = true →
  let now := clock w in
  let s1 := card_taken rest (vars w) in
  let s2 := window_opened now s1 in
  let w' := run (process_rfid_events reads) w in
  trace w' = trace w ++ [Entry (SendStatus AUTHORIZED_CARD) now s1;
                         Entry (SetAngle 180) now s2;
                         Entry (SetAngle 0) (now + 2) s2] ∧
  vars w' = s2 ∧ now + 2 <= clock w'.
Proof.
  intros Hq Hu. cbv zeta. unfold process_rfid_events, run. mstep.
  rewrite Hq. mstep. rewrite Hu. mstep.
  match goal with |- context [wait_card_removed reads ?w1] =>
    destruct (wait_card_removed_effect reads w1) as (r & t & Ht & ->) end.
  cbn in Ht. destruct r; cbn; rewrite <- !app_assoc; cbn;
    repeat split; try done; lra.
Qed.

Lemma process_rfid_events_denied w u rest reads :
  rfid_queue (vars w) = (false, u) :: rest →
  truthy u = true →
  process_rfid_events reads w =
  (Some (),
   with_clock (clock w + 0.5)
     (with_trace (trace w ++ [Entry (SendStatus UNAUTHORIZED_CARD) (clock w)
                                (card_taken rest (vars w))])
        (with_vars (card_taken rest) w))).
Proof.
  intros Hq Hu. unfold process_rfid_events. mstep. rewrite Hq. mstep.
  by rewrite Hu.
Qed.

Lemma process_rfid_events_returns w reads :
  (∀ u rest, rfid_queue (vars w) = (true, u) :: rest → truthy u = true →
             Exists (fun r => ends_wait r = true) reads) →
  result (process_rfid_events reads) w = Some ().
Proof.
  intros Hreads. unfold process_rfid_events, result. mstep.
  destruct (rfid_queue (vars w)) as [|[[] u] rest] eqn:Hq; mstep; try done.
  - destruct (truthy u) eqn:Hu; mstep; [|done].
    match goal with |- context [wait_card_removed reads ?w1] =>
      pose proof (wait_card_removed_leaves reads w1 (Hreads u rest eq_refl Hu))
        as Hw;
      unfold result in Hw; destruct (wait_card_removed reads w1) as [r w2] end.
    cbn in Hw. by subst r.
  - by destruct (truthy u).
Qed.

(** ** The recognition coordinator *)

Lemma check_face_idle w :
  face_recognition_pending (vars w) = false →
  check_face_recognition_result w = (Some false, w).
Proof.
  intros Hp. unfold check_face_recognition_result. mstep. by rewrite Hp.
Qed.

Lemma check_face_timeout w :
  face_recognition_pending (vars w) = true →
  FACE_RECOGNITION_TIMEOUT < clock w - face_recognition_start_time (vars w) →
  check_face_recognition_result w =
  (Some false, with_vars (timed_out (completed w)) w).
Proof.
  intros Hp Hlate. apply gtb_true in Hlate.
  unfold check_face_recognition_result. mstep. rewrite Hp. mstep.
  by rewrite Hlate.
Qed.

Lemma check_face_waiting w :
  face_recognition_pending (vars w) = true →
  clock w - face_recognition_start_time (vars w) <= FACE_RECOGNITION_TIMEOUT →
  face_result_queue (vars w) = [] →
  check_face_recognition_result w =
  (Some false, with_vars (reaped (completed w)) w).
Proof.
  intros Hp Hlate Hq. apply gtb_false in Hlate.
  unfold check_face_recognition_result. mstep. rewrite Hp. mstep.
  rewrite Hlate. mstep. by rewrite Hq.
Qed.

Lemma check_face_unknown w rest :
  face_recognition_pending (vars w) = true →
  clock w - face_recognition_start_time (vars w) <= FACE_RECOGNITION_TIMEOUT →
  face_result_queue (vars w) = "unknown"%string :: rest →
  check_face_recognition_result w =
  (Some false,
   with_vars (fun s => set_face_recognition_pending false
                         (set_face_result_queue rest
                            (reaped (completed w) s))) w).
Proof.
  intros Hp Hlate Hq. apply gtb_false in Hlate.
  unfold check_face_recognition_result. mstep. rewrite Hp. mstep.
  rewrite Hlate. mstep. by rewrite Hq.
Qed.

Lemma check_face_recognized w name rest :
  face_recognition_pending (vars w) = true →
  clock w - face_recognition_start_time (vars w) <= FACE_RECOGNITION_TIMEOUT →
  face_result_queue (vars w) = name :: rest →
  name ≠ "unknown"%string →
  let now := clock w in
  let s := recognized (completed w) rest now (vars w) in
  check_face_recognition_result w =
  (Some true,
   with_trace (trace w ++ [Entry (SendStatus AUTHORIZED_CARD) now s;
                           Entry (SetAngle 180) now s;
                           Entry (SetAngle 0) (now + 2) s])
     (with_clock (now + 2) (with_vars (fun _ => s) w))).
Proof.
  intros Hp Hlate Hq Hname. apply gtb_false in Hlate.
  apply String.eqb_neq in Hname.
  unfold check_face_recognition_result. mstep. rewrite Hp. mstep.
  rewrite Hlate. mstep. rewrite Hq. mstep. rewrite Hname. mstep.
  by rewrite <- !app_assoc.
Qed.

(** The five ways a poll can go. *)
Lemma check_face_cases w :
  let p := check_face_recognition_result w in
  (face_recognition_pending (vars w) = false ∧ p = (Some false, w)) ∨
  (face_recognition_pending (vars w) = true ∧
   ((FACE_RECOGNITION_TIMEOUT < clock w - face_recognition_start_time (vars w) ∧
     p = (Some false, with_vars (timed_out (completed w)) w)) ∨
    (clock w - face_recognition_start_time (vars w) <= FACE_RECOGNITION_TIMEOUT ∧
     ((face_result_queue (vars w) = [] ∧
       p = (Some false, with_vars (reaped (completed w)) w)) ∨
      (∃ rest, face_result_queue (vars w) = "unknown"%string :: rest ∧
         p = (Some false,
              with_vars (fun s => set_face_recognition_pending false
                           (set_face_result_queue rest
                              (reaped (completed w) s))) w)) ∨
      (∃ name rest, face_result_queue (vars w) = name :: rest ∧
         name ≠ "unknown"%string ∧
         p = (Some true,
              let s := recognized (completed w) rest (clock w) (vars w) in
              with_trace
                (trace w ++ [Entry (SendStatus AUTHORIZED_CARD) (clock w) s;
                             Entry (SetAngle 180) (clock w) s;
                             Entry (SetAngle 0) (clock w + 2) s])
                (with_clock (clock w + 2) (with_vars (fun _ => s) w)))))))).
Proof.
  cbv zeta. destruct (face_recognition_pending (vars w)) eqn:Hp.
  2: { left. split; [done|]. by apply check_face_idle. }
  right. split; [done|].
  destruct (QTime.gtb (clock w - face_recognition_start_time (vars w))
              FACE_RECOGNITION_TIMEOUT) eqn:Hlate.
  { apply gtb_true in Hlate. left. split; [done|]. by apply check_face_timeout. }
  apply gtb_false in Hlate. right. split; [done|].
  destruct (face_result_queue (vars w)) as [|name rest] eqn:Hq.
  { left. split; [done|]. by apply check_face_waiting. }
  right. destruct (String.eqb_spec name "unknown") as [->|Hname].
  - left. exists rest. split; [done|]. by apply check_face_unknown.
  - right. exists name, rest. repeat split; try done.
    by apply (check_face_recognized w name rest).
Qed.

Lemma check_face_returns w : ∃ b, result check_face_recognition_result w = Some b.
Proof.
  unfold result.
  destruct (check_face_cases w)
    as [[_ ->]|[_ [[_ ->]|[_ [[_ ->]|[(? & _ & ->)|(? & ? & _ & _ & ->)]]]]]];
    eauto.
Qed.

(** [start_face_recognition]: the three ways a call can go. *)
Lemma start_face_rejected w :
  (2 ≤ size (active_pending w))%nat →
  start_face_recognition w =
  (Some false, with_vars (set_active_image_futures (active_pending w)) w).
Proof.
  intros Hfull. unfold start_face_recognition, active_pending in *. mstep.
  destruct (Nat.leb_spec 2
    (size (filter (fun f => f ∉ completed w) (active_image_futures (vars w)))));
    [done|lia].
Qed.

Lemma start_face_submit_fails w :
  (size (active_pending w) < 2)%nat →
  executor_open w = false →
  start_face_recognition w =
  (Some false, with_vars (set_active_image_futures (active_pending w)) w).
Proof.
  intros Hroom Hclosed. unfold start_face_recognition, active_pending in *. mstep.
  destruct (Nat.leb_spec 2
    (size (filter (fun f => f ∉ completed w) (active_image_futures (vars w)))));
    [lia|].
  unfold executor_submit. cbn. by rewrite Hclosed.
Qed.

Lemma start_face_started w :
  (size (active_pending w) < 2)%nat →
  executor_open w = true →
  let f := fresh (submitted w) in
  let s1 := set_active_image_futures (active_pending w) (vars w) in
  start_face_recognition w =
  (Some true,
   with_vars (fun _ =>
       set_face_recognition_start_time (clock w)
         (set_face_recognition_pending true
            (set_active_image_futures ({[f]} ∪ active_pending w) s1)))
     (with_trace (trace w ++ [Entry (Submit f) (clock w) s1])
        (with_submitted ({[f]} ∪ submitted w) w))).
Proof.
  intros Hroom Hopen. unfold start_face_recognition, active_pending in *. mstep.
  destruct (Nat.leb_spec 2
    (size (filter (fun f => f ∉ completed w) (active_image_futures (vars w)))));
    [lia|].
  unfold executor_submit. cbn. by rewrite Hopen.
Qed.

Lemma start_face_cases w :
  let p := start_face_recognition w in
  p = (Some false, with_vars (set_active_image_futures (active_pending w)) w) ∨
  ((size (active_pending w) < 2)%nat ∧ executor_open w = true ∧
   p = (Some true,
        let f := fresh (submitted w) in
        let s1 := set_active_image_futures (active_pending w) (vars w) in
        with_vars (fun _ =>
            set_face_recognition_start_time (clock w)
              (set_face_recognition_pending true
                 (set_active_image_futures ({[f]} ∪ active_pending w) s1)))
          (with_trace (trace w ++ [Entry (Submit f) (clock w) s1])
             (with_submitted ({[f]} ∪ submitted w) w)))).
Proof.
  cbv zeta. destruct (Nat.leb_spec 2 (size (active_pending w))).
  - left. by apply start_face_rejected.
  - destruct (executor_open w) eqn:Hopen.
    + right. repeat split; try done. by apply start_face_started.
    + left. by apply start_face_submit_fails.
Qed.

Lemma start_face_returns w : ∃ b, result start_face_recognition w = Some b.
Proof.
  unfold result. destruct (start_face_cases w) as [->|(_ & _ & ->)]; eauto.
Qed.

(** *** The pool invariant *)

#[local] Instance pool_kept_preorder : PreOrder pool_kept.
Proof.
  split.
  - intros w Hok. exact Hok.
  - intros w1 w2 w3 H12 H23 Hok. by apply H23, H12.
Qed.

Lemma pool_ok_initial t0 : pool_ok (initial_world t0).
Proof.
  split.
  - unfold in_flight. cbn. set_solver.
  - unfold active_pending. cbn. by rewrite (leibniz_equiv _ _ (filter_empty _)), size_empty; lia.
Qed.

Lemma pool_ok_in_flight w : pool_ok w → (size (in_flight w) ≤ 2)%nat.
Proof.
  intros [Htracked Hsize].
  etransitivity; [apply subseteq_size|exact Hsize].
  unfold in_flight, active_pending in *. set_solver.
Qed.

Lemma pool_ok_full w :
  pool_ok w → size (in_flight w) = 2%nat → (2 ≤ size (active_pending w))%nat.
Proof.
  intros [Htracked _] <-. apply subseteq_size.
  unfold in_flight, active_pending in *. set_solver.
Qed.

Lemma reaped_active finished s :
  active_image_futures (reaped finished s) =
  filter (fun f => f ∉ finished) (active_image_futures s).
Proof. cbn. apply leibniz_equiv. set_solver. Qed.

Lemma pool_ok_reaped w s' :
  pool_ok w →
  active_image_futures s' =
    filter (fun f => f ∉ completed w) (active_image_futures (vars w)) →
  pool_ok (with_vars (fun _ => s') w).
Proof.
  intros [Htracked Hsize] Hact. split.
  - unfold in_flight in *. cbn. rewrite Hact. set_solver.
  - etransitivity; [apply subseteq_size|exact Hsize].
    unfold active_pending. cbn. rewrite Hact. set_solver.
Qed.

Lemma with_vars_const f w : with_vars f w = with_vars (fun _ => f (vars w)) w.
Proof. done. Qed.

Lemma check_face_pool : respects pool_kept check_face_recognition_result.
Proof.
  intros w Hok. unfold run.
  destruct (check_face_cases w)
    as [[_ ->]|[_ [[_ ->]|[_ [[_ ->]|[(? & _ & ->)|(? & ? & _ & _ & ->)]]]]]];
    cbn [snd]; try done.
  - rewrite with_vars_const. apply pool_ok_reaped; [done|]. apply reaped_active.
  - rewrite with_vars_const. apply pool_ok_reaped; [done|]. apply reaped_active.
  - rewrite with_vars_const. apply pool_ok_reaped; [done|]. apply reaped_active.
  - cbv zeta.
    match goal with |- pool_ok (with_trace ?tr (with_clock ?t ?w1)) =>
      assert (pool_ok w1) as Hw1
    end.
    { apply pool_ok_reaped; [done|]. apply reaped_active. }
    exact Hw1.
Qed.

Lemma start_face_pool : respects pool_kept start_face_recognition.
Proof.
  intros w Hok. unfold run.
  destruct (start_face_cases w) as [->|(Hroom & _ & ->)]; cbn [snd].
  - rewrite with_vars_const. by apply pool_ok_reaped.
  - destruct Hok as [Htracked _]. cbv zeta. split.
    + unfold in_flight, active_pending in *. cbn. set_solver.
    + unfold active_pending in *. cbn.
      set (P := filter (fun f => f ∉ completed w)
                  (active_image_futures (vars w))) in *.
      set (f := fresh (submitted w)).
      transitivity (size ({[f]} ∪ P)); [apply subseteq_size; set_solver|].
      rewrite size_union_alt, size_singleton.
      assert (size (P ∖ {[f]}) ≤ size P)%nat
        by (apply subseteq_size; set_solver).
      lia.
Qed.

Lemma image_done_pool f : respects pool_kept (image_done f).
Proof.
  intros w [Htracked Hsize]. unfold run, image_done.
  destruct (decide (f ∈ submitted w)); cbn; [|done]. split.
  - unfold in_flight in *. cbn. set_solver.
  - transitivity (size (active_pending w)); [|done].
    apply subseteq_size. unfold active_pending. cbn.
    intros x. rewrite !elem_of_filter. set_solver.
Qed.

#[local] Hint Resolve check_face_pool start_face_pool image_done_pool : frame.

Ltac pool_prim :=
  unfold pool_kept, pool_ok, in_flight, active_pending; cbn;
  repeat case_match; by cbn.

Lemma perform_pool_kept a : respects pool_kept (perform a).
Proof.
  destruct a; cbn [perform];
    unfold on_face_result, pir_motion_callback, pir_watchdog_iteration,
      alarm_monitor_iteration, rfid_reader_iteration, process_rfid_events,
      main_loop_iteration, proximity_gate, check_motion_and_distance;
    respects_with pool_prim.
Qed.

Lemma pool_ok_reachable t0 acts : pool_ok (exec_all acts (initial_world t0)).
Proof.
  apply (exec_all_respects pool_kept (fun _ => True)).
  - intros a _. apply perform_pool_kept.
  - by apply Forall_forall.
  - apply pool_ok_initial.
Qed.

(** *** The cooldown after a recognized face *)

#[local] Instance no_attempt_preorder : PreOrder no_attempt.
Proof.
  split.
  - intros w. repeat split; [lra|]. exists []. by rewrite app_nil_r.
  - intros w1 w2 w3 (Hc1 & Hl1 & new1 & Ht1 & Hn1) (Hc2 & Hl2 & new2 & Ht2 & Hn2).
    repeat split; [lra|congruence|]. exists (new1 ++ new2).
    split; [by rewrite Ht2, Ht1, app_assoc|by apply Forall_app].
Qed.

#[local] Instance cooldown_kept_preorder : PreOrder cooldown_kept.
Proof.
  split.
  - intros w Hw. repeat split; try lra. exists []. by rewrite app_nil_r.
  - intros w1 w2 w3 H12 H23 Hw1.
    destruct (H12 Hw1) as (Hc1 & Hl1 & Hw2 & new1 & Ht1 & Hn1).
    destruct (H23 Hw2) as (Hc2 & Hl2 & Hw3 & new2 & Ht2 & Hn2).
    repeat split; try lra. exists (new1 ++ new2).
    split; [by rewrite Ht2, Ht1, app_assoc|].
    apply Forall_app. split; [done|].
    eapply Forall_impl; [exact Hn2|]. cbn. intros e He Hs.
    specialize (He Hs). lra.
Qed.



Ltac no_attempt_prim :=
  unfold no_attempt, QTime.span; cbn; repeat case_match; cbn;
  (split; [first [lra | apply Qle_minus_iff; ring_simplify; done]|]);
  (split; [done|]);
  first [ by exists []; rewrite app_nil_r
        | eexists; split; [reflexivity|]; by repeat constructor ].


Lemma proximity_gate_no_attempt ct dist :
  respects no_attempt (proximity_gate ct dist).
Proof.
  unfold proximity_gate, check_motion_and_distance.
  respects_with no_attempt_prim.
Qed.




(** ** The proximity gate *)

Lemma proximity_gate_eq w ct dist :
  proximity_gate ct dist w =
  (Some (negb (face_recognition_pending (vars w))
         && QTime.gtb (ct - last_image_attempt w) IMAGE_COOLDOWN
         && QTime.gtb (ct - last_face_recognition_success (vars w))
              FACE_RECOGNITION_COOLDOWN
         && QTime.leb (clock w - last_motion_time (vars w)) 5
         && match dist with
            | Distance (Some distance) => QTime.leb distance 50
            | _ => false
            end), w).
Proof.
  unfold proximity_gate, check_motion_and_distance. mstep.
  destruct (negb _ && _ && _); mstep; [|done].
  destruct (QTime.leb _ 5); mstep; [|done].
  destruct dist as [|[distance|]]; try done. by destruct (QTime.leb distance 50).
Qed.


Lemma proximity_gate_run w ct dist : run (proximity_gate ct dist) w = w.
Proof. unfold run. by rewrite proximity_gate_eq. Qed.




(** The attempt made when the gate is open. *)
Lemma main_loop_attempt (ct : Q) w :
  ((fun w => (Some (), with_last_image_attempt ct w));;
   start_face_recognition;; ret ()) w =
  (Some (), run start_face_recognition (with_last_image_attempt ct w)).
Proof.
  unfold bind, run. destruct (start_face_returns (with_last_image_attempt ct w))
    as [b Hb]. unfold result in Hb.
  destruct (start_face_recognition _) as [r w1]. cbn in *. by subst r.
Qed.

Lemma main_loop_attempt_run (ct : Q) w :
  run ((fun w => (Some (), with_last_image_attempt ct w));;
       start_face_recognition;; ret ()) w =
  run start_face_recognition (with_last_image_attempt ct w).
Proof. unfold run at 1. by rewrite main_loop_attempt. Qed.

Lemma main_loop_attempt_result (ct : Q) w :
  result ((fun w => (Some (), with_last_image_attempt ct w));;
          start_face_recognition;; ret ()) w = Some ().
Proof. unfold result. by rewrite main_loop_attempt. Qed.




(** ** The motion tracker *)

#[local] Instance motion_ordered_preorder : PreOrder motion_ordered.
Proof.
  split.
  - intros w Hw. split; [lra|done].
  - intros w1 w2 w3 H12 H23 Hw1. destruct (H12 Hw1) as [Hl1 Hw2].
    destruct (H23 Hw2) as [Hl2 Hw3]. split; [lra|done].
Qed.

Lemma perform_motion_ordered a : respects motion_ordered (perform a).
Proof.
  intros w Hw.
  assert (a = PirMotion ∨ a ≠ PirMotion) as [->|Ha]
    by (destruct a; (by left) || by right).
  - cbn. split; [done|lra].
  - destruct (perform_motion_untouched a Ha w) as [Hl _].
    pose proof (perform_clock_advances a w) as Hc. unfold clock_advances in Hc.
    rewrite Hl. split; lra.
Qed.

Lemma check_motion_and_distance_eq w dist :
  check_motion_and_distance dist w =
  (Some (QTime.leb (clock w - last_motion_time (vars w)) 5
         && match dist with
            | Distance (Some distance) => QTime.leb distance 50
            | _ => false
            end), w).
Proof.
  unfold check_motion_and_distance. mstep.
  destruct (QTime.leb _ 5); mstep; [|done].
  destruct dist as [|[distance|]]; try done. by destruct (QTime.leb distance 50).
Qed.

(** ** The queue of card events *)

#[local] Instance queue_kept_preorder : PreOrder queue_kept.
Proof.
  split.
  - intros w Hok. exact Hok.
  - intros w1 w2 w3 H12 H23 Hok. by apply H23, H12.
Qed.

Lemma process_rfid_events_queue reads w :
  rfid_queue (vars (run (process_rfid_events reads) w)) =
  tail (rfid_queue (vars w)).
Proof.
  unfold process_rfid_events, run. mstep.
  destruct (rfid_queue (vars w)) as [|[authorized u] rest] eqn:Hq; mstep;
    [done|].
  destruct (truthy u); mstep; [|done]. destruct authorized; mstep; [|done].
  match goal with |- context [wait_card_removed reads ?w1] =>
    destruct (wait_card_removed_effect reads w1) as (r & t & _ & ->) end.
  by destruct r.
Qed.

Lemma process_rfid_events_queue_kept reads :
  respects queue_kept (process_rfid_events reads).
Proof.
  intros w Hok. unfold queue_ok in *. rewrite process_rfid_events_queue.
  destruct (rfid_queue (vars w)); [done|]. by inversion Hok.
Qed.

Lemma rfid_reader_iteration_queue_kept r :
  respects queue_kept (rfid_reader_iteration r).
Proof.
  intros w Hok. unfold queue_ok in *. destruct r as [|authorized u]; [done|].
  cbn. destruct (truthy u) eqn:Hu; [|done]. cbn.
  apply Forall_app. split; [done|]. by constructor.
Qed.

#[local] Hint Resolve process_rfid_events_queue_kept
  rfid_reader_iteration_queue_kept : frame.

Ltac queue_prim :=
  unfold queue_kept, queue_ok; cbn; repeat case_match; by cbn.

Lemma perform_queue_kept a : respects queue_kept (perform a).
Proof.
  destruct a; cbn [perform];
    unfold on_face_result, pir_motion_callback, pir_watchdog_iteration,
      alarm_monitor_iteration, main_loop_iteration, proximity_gate,
      check_motion_and_distance, start_face_recognition,
      check_face_recognition_result, image_done;
    respects_with queue_prim.
Qed.

(** In every execution of the program the queued card events have truthy
    UIDs: the hypothesis on the UID in the results on [process_rfid_events]
    holds for every event that the function can take from the queue. *)
Lemma queue_ok_reachable t0 acts : queue_ok (exec_all acts (initial_world t0)).
Proof.
  apply (exec_all_respects queue_kept (fun _ => True)).
  - intros a _. apply perform_queue_kept.
  - by apply Forall_forall.
  - constructor.
Qed.

(** ** One iteration of the main loop *)

(** One iteration, stage by stage. *)
Lemma main_loop_iteration_stages reads dist w :
  run (main_loop_iteration reads dist) w =
  match result (process_rfid_events reads) w with
  | None => run (process_rfid_events reads) w
  | Some _ =>
      let w2 := run check_face_recognition_result
                  (run (process_rfid_events reads) w) in
      run (main_loop_tail (clock w))
        (if negb (face_recognition_pending (vars w2))
            && QTime.gtb (clock w - last_image_attempt w2) IMAGE_COOLDOWN
            && QTime.gtb (clock w - last_face_recognition_success (vars w2))
                 FACE_RECOGNITION_COOLDOWN
            && QTime.leb (clock w2 - last_motion_time (vars w2)) 5
            && match dist with
               | Distance (Some distance) => QTime.leb distance 50
               | _ => false
               end
         then run start_face_recognition
                (with_last_image_attempt (clock w) w2)
         else w2)
  end.
Proof.
  unfold main_loop_iteration.
  rewrite run_bind. cbn [result run time_time fst snd].
  fold (main_loop_tail (clock w)).
  rewrite run_bind.
  destruct (result (process_rfid_events reads) w) as [[]|]; [|done].
  set (w1 := run (process_rfid_events reads) w).
  rewrite run_bind. destruct (check_face_returns w1) as [b ->].
  cbv zeta. set (w2 := run check_face_recognition_result w1).
  rewrite run_bind, proximity_gate_run.
  unfold result at 1. rewrite proximity_gate_eq. cbn [fst].
  set (go := _ && _ && _ && _ && _).
  rewrite run_bind. destruct go.
  - by rewrite main_loop_attempt_result, main_loop_attempt_run.
  - done.
Qed.

Lemma main_loop_tail_run ct w :
  run (main_loop_tail ct) w
  = with_clock (if (QTime.to_int ct mod 30 =? 0)%Z
                then clock w + 1 + 0.05 else clock w + 0.05) w.
Proof.
  unfold main_loop_tail, run. mstep.
  by destruct (QTime.to_int ct mod 30 =? 0)%Z.
Qed.

Lemma count_submits_app tr1 tr2 :
  count_submits (tr1 ++ tr2) = (count_submits tr1 + count_submits tr2)%nat.
Proof.
  induction tr1 as [|e tr1 IH]; cbn; [done|].
  destruct (is_submit e); cbn; by rewrite IH.
Qed.

#[local] Instance attempt_untouched_preorder : PreOrder attempt_untouched.
Proof.
  split.
  - intros w. split; [done|]. exists []. by rewrite app_nil_r.
  - intros w1 w2 w3 (Hl1 & new1 & Ht1 & Hn1) (Hl2 & new2 & Ht2 & Hn2).
    split; [congruence|]. exists (new1 ++ new2).
    rewrite Ht2, Ht1, <- app_assoc, count_submits_app, Hn1, Hn2. done.
Qed.

Ltac attempt_prim :=
  unfold attempt_untouched; cbn; repeat case_match; cbn;
  (split; [done|]);
  first [ by exists []; rewrite app_nil_r
        | eexists; split; [reflexivity|]; done ].

Lemma process_rfid_events_attempt reads :
  respects attempt_untouched (process_rfid_events reads).
Proof. unfold process_rfid_events. respects_with attempt_prim. Qed.

Lemma check_face_attempt :
  respects attempt_untouched check_face_recognition_result.
Proof. unfold check_face_recognition_result. respects_with attempt_prim. Qed.

Lemma main_loop_tail_attempt ct : respects attempt_untouched (main_loop_tail ct).
Proof. unfold main_loop_tail. respects_with attempt_prim. Qed.


(** * The claims *)

Lemma appended_app w w' new : trace w' = trace w ++ new → appended w w' = new.
Proof. unfold appended. intros ->. by rewrite drop_app_length. Qed.

(** C1. One poll of the alarm monitor, from a state in which the alarm is not
    raised: the alarm becomes raised, and exactly one PHYSICAL_ALARM
    notification is sent, if and only if the door reads open, the authorized
    flag is false and more than AUTHORIZED_DOOR_OPEN_INTERVAL (5 s) passed
    since the last authorization; otherwise nothing is sent and the alarm
    stays down.  Over any execution in which the monitor never reads the
    door closed (an open span, whatever the other threads do meanwhile), at
    most one notification is sent, and none if the alarm was already raised
    (a poll made while the alarm is raised sends nothing).  A closed reading
    always lowers the alarm and clears the authorized flag, sending
    nothing. *)
Theorem C1_alarm_monitor :
  (∀ w reading,
     door_open_alarm_triggered (vars w) = false →
     let w' := run (alarm_monitor_iteration reading) w in
     ((door_open_alarm_triggered (vars w') = true ∧
       appended w w' = [alarm_entry w]) ↔ intrusion w reading) ∧
     (¬ intrusion w reading →
      door_open_alarm_triggered (vars w') = false ∧ appended w w' = [])) ∧
  (∀ w reading,
     door_open_alarm_triggered (vars w) = true →
     appended w (run (alarm_monitor_iteration reading) w) = []) ∧
  (∀ w acts,
     Forall (fun a => reads_closed a = false) acts →
     let w' := exec_all acts w in
     (count_status PHYSICAL_ALARM (trace w')
      ≤ count_status PHYSICAL_ALARM (trace w) + 1)%nat ∧
     (door_open_alarm_triggered (vars w) = true →
      (count_status PHYSICAL_ALARM (trace w')
       ≤ count_status PHYSICAL_ALARM (trace w))%nat)) ∧
  (∀ w,
     let w' := run (alarm_monitor_iteration (Some 1%Z)) w in
     door_open_alarm_triggered (vars w') = false ∧
     authorized_door_open (vars w') = false ∧
     trace w' = trace w).
Proof.
  split; [|split; [|split]].
  - intros w reading Hdown. cbv zeta.
    assert (¬ intrusion w reading →
            door_open_alarm_triggered
              (vars (run (alarm_monitor_iteration reading) w)) = false ∧
            appended w (run (alarm_monitor_iteration reading) w) = [])
      as Hquiet.
    { intros Hno.
      destruct (decide (reading = Some 1%Z)) as [->|Hopen].
      - rewrite alarm_poll_closed. split; [done|].
        apply appended_app. cbn. by rewrite app_nil_r.
      - rewrite alarm_poll_quiet; [|done|congruence].
        split; [done|]. apply appended_app. cbn. by rewrite app_nil_r. }
    split; [|done]. split.
    + intros [Hup _]. destruct (intrusion_dec w reading) as [Hi|Hi]; [done|].
      destruct (Hquiet Hi) as [Hdown' _]. congruence.
    + intros Hi. rewrite alarm_poll_intrusion by done.
      split; [done|]. by apply appended_app.
  - intros w reading Hup. apply appended_app.
    destruct (decide (reading = Some 1%Z)) as [->|Hopen].
    + rewrite alarm_poll_closed. cbn. by rewrite app_nil_r.
    + rewrite alarm_poll_already_triggered; [|done|congruence].
      cbn. by rewrite app_nil_r.
  - intros w acts Hspan. cbv zeta.
    pose proof (open_span_potential acts w Hspan) as Hpot.
    unfold alarm_potential in Hpot. split.
    + destruct (door_open_alarm_triggered (vars w)),
        (door_open_alarm_triggered (vars (exec_all acts w))); lia.
    + intros Hup. rewrite Hup in Hpot.
      destruct (door_open_alarm_triggered (vars (exec_all acts w))); lia.
  - intros w. by rewrite alarm_poll_closed.
Qed.

Lemma C1_alarm_monitor_witness :
  door_open_alarm_triggered (vars Scenario.start) = false ∧
  intrusion Scenario.start (Some 0%Z) ∧
  door_open_alarm_triggered
    (vars (run (alarm_monitor_iteration (Some 0%Z)) Scenario.start)) = true ∧
  Forall (fun a => reads_closed a = false) Scenario.door_held_open ∧
  (count_status PHYSICAL_ALARM
     (trace (exec_all Scenario.door_held_open Scenario.start)) ≤ 1)%nat.
Proof.
  destruct C1_alarm_monitor as (Hpoll & _ & Hspan & _).
  assert (intrusion Scenario.start (Some 0%Z)) as Hi
    by (repeat split; reflexivity).
  split; [reflexivity|]. split; [exact Hi|]. split.
  - destruct (Hpoll Scenario.start (Some 0%Z) eq_refl) as [[_ Hup] _].
    exact (proj1 (Hup Hi)).
  - assert (Forall (fun a => reads_closed a = false) Scenario.door_held_open)
      as Hopen by (repeat constructor).
    split; [exact Hopen|].
    exact (proj1 (Hspan Scenario.start Scenario.door_held_open Hopen)).
Defined.










(** C5. In every execution, whatever the sequence of calls, at most two
    capture tasks are in flight (submitted and not finished).  When two are
    in flight, [start_face_recognition] returns False, submits nothing
    (the pool and the trace are as before) and leaves the pending flag and
    the start time of the request as they were. *)
Theorem C5_pool_limit t0 acts :
  let w := exec_all acts (initial_world t0) in
  (size (in_flight w) ≤ 2)%nat ∧
  (size (in_flight w) = 2%nat →
   let w' := run start_face_recognition w in
   result start_face_recognition w = Some false ∧
   submitted w' = submitted w ∧
   in_flight w' = in_flight w ∧
   trace w' = trace w ∧
   face_recognition_pending (vars w') = face_recognition_pending (vars w) ∧
   face_recognition_start_time (vars w')
     = face_recognition_start_time (vars w)).
Proof.
  cbv zeta. pose proof (pool_ok_reachable t0 acts) as Hok.
  split; [by apply pool_ok_in_flight|].
  intros Hfull. unfold result, run.
  by rewrite start_face_rejected by (by apply pool_ok_full).
Qed.

Lemma C5_pool_limit_witness :
  let w := exec_all Scenario.two_stuck_captures Scenario.start in
  size (in_flight w) = 2%nat ∧
  result start_face_recognition w = Some false ∧
  submitted (run start_face_recognition w) = submitted w.
Proof.
  cbv zeta.
  assert (size (in_flight (exec_all Scenario.two_stuck_captures Scenario.start))
          = 2%nat) as Hfull by (vm_compute; reflexivity).
  destruct (C5_pool_limit 100 Scenario.two_stuck_captures) as [_ Hreject].
  destruct (Hreject Hfull) as (Hres & Hsub & _).
  split; [exact Hfull|]. split; [exact Hres|exact Hsub].
Defined.

(** C6. When [process_rfid_events] takes an authorized card event from the
    queue, it makes exactly these calls, in this order: one AUTHORIZED_CARD
    notification, one servo command to 180 (open) and, two seconds later,
    one servo command to 0 (close); at both servo commands the authorized
    flag is already true and the window start time is the time of the
    event.  For an unauthorized card it sends one UNAUTHORIZED_CARD
    notification and no servo command.  (The UID of a queued event is
    truthy: see [queue_ok_reachable].) *)
Theorem C6_card_event w authorized u rest reads :
  rfid_queue (vars w) = (authorized, u) :: rest →
  truthy u = true →
  let now := clock w in
  let s1 := card_taken rest (vars w) in
  let s2 := window_opened now s1 in
  let calls := appended w (run (process_rfid_events reads) w) in
  if authorized then
    calls = [ Entry (SendStatus AUTHORIZED_CARD) now s1;
              Entry (SetAngle 180) now s2;
              Entry (SetAngle 0) (now + 2) s2 ] ∧
    authorized_door_open s2 = true ∧
    last_authorized_open_time s2 = now ∧
    count_status AUTHORIZED_CARD calls = 1%nat ∧
    servo_commands calls = [180%Z; 0%Z]
  else
    calls = [ Entry (SendStatus UNAUTHORIZED_CARD) now s1 ] ∧
    count_status UNAUTHORIZED_CARD calls = 1%nat ∧
    servo_commands calls = [].
Proof.
  intros Hq Hu. cbv zeta. destruct authorized.
  - destruct (process_rfid_events_authorized w u rest reads Hq Hu)
      as (Ht & _ & _).
    rewrite (appended_app _ _ _ Ht). by repeat split.
  - unfold run. rewrite (process_rfid_events_denied w u rest reads Hq Hu).
    cbn [snd]. erewrite appended_app; [|reflexivity]. by repeat split.
Qed.

Lemma C6_card_event_witness :
  let w := exec_all [RfidRead (ReadCard true (Some "0C00201B99"%string))]
             Scenario.start in
  servo_commands (appended w (run (process_rfid_events Scenario.card_removed) w))
  = [180%Z; 0%Z].
Proof.
  cbv zeta.
  pose proof (C6_card_event
    (exec_all [RfidRead (ReadCard true (Some "0C00201B99"%string))]
       Scenario.start)
    true (Some "0C00201B99"%string) [] Scenario.card_removed
    eq_refl eq_refl) as H.
  cbv zeta in H. exact (proj2 (proj2 (proj2 (proj2 H)))).
Defined.

(** C7. A poll made while a request is pending and more than
    FACE_RECOGNITION_TIMEOUT (5 s) passed since it started (whether a
    result is queued or not) clears the pending flag and returns False: no
    call is made to the servo or to the status sender, and the authorized
    flag, the window start time, the cooldown clock and the result queue
    are as before. *)
Theorem C7_timeout_poll w :
  face_recognition_pending (vars w) = true →
  FACE_RECOGNITION_TIMEOUT < clock w - face_recognition_start_time (vars w) →
  let w' := run check_face_recognition_result w in
  result check_face_recognition_result w = Some false ∧
  face_recognition_pending (vars w') = false ∧
  trace w' = trace w ∧
  authorized_door_open (vars w') = authorized_door_open (vars w) ∧
  last_authorized_open_time (vars w') = last_authorized_open_time (vars w) ∧
  last_face_recognition_success (vars w')
    = last_face_recognition_success (vars w) ∧
  face_result_queue (vars w') = face_result_queue (vars w) ∧
  clock w' = clock w.
Proof.
  intros Hp Hlate. cbv zeta. unfold result, run.
  by rewrite check_face_timeout.
Qed.

Lemma C7_timeout_poll_witness :
  let w := exec_all [PirMotion;
                     MainIteration Scenario.card_removed (Distance (Some 30));
                     Elapse 6 1] Scenario.start in
  result check_face_recognition_result w = Some false ∧
  face_recognition_pending (vars (run check_face_recognition_result w)) = false.
Proof.
  cbv zeta.
  destruct (C7_timeout_poll
    (exec_all [PirMotion;
               MainIteration Scenario.card_removed (Distance (Some 30));
               Elapse 6 1] Scenario.start)) as (Hres & Hp & _).
  - vm_compute. reflexivity.
  - vm_compute. reflexivity.
  - split; [exact Hres|exact Hp].
Defined.

(** C8. [pir_motion_callback] sets [last_motion_time] to the current time
    and adds one to [motion_count]; the recency test of
    [check_motion_and_distance] changes nothing and holds exactly when the
    current time minus [last_motion_time] is at most 5 s (the threshold is
    fixed in the source).  Along every execution that starts with
    [last_motion_time] not ahead of the clock, [last_motion_time] never
    decreases. *)
Theorem C8_motion_tracker :
  (∀ w,
     let w' := run pir_motion_callback w in
     last_motion_time (vars w') = clock w ∧
     motion_count (vars w') = (motion_count (vars w) + 1)%Z) ∧
  (∀ w dist,
     run (check_motion_and_distance dist) w = w ∧
     (result (check_motion_and_distance dist) w = Some true →
      clock w - last_motion_time (vars w) <= 5) ∧
     (∀ distance, dist = Distance (Some distance) → distance <= 50 →
      (result (check_motion_and_distance dist) w = Some true ↔
       clock w - last_motion_time (vars w) <= 5))) ∧
  (∀ w acts1 acts2,
     last_motion_time (vars w) <= clock w →
     last_motion_time (vars (exec_all acts1 w))
       <= last_motion_time (vars (exec_all (acts1 ++ acts2) w))).
Proof.
  split; [done|split].
  - intros w dist. unfold run, result.
    rewrite check_motion_and_distance_eq. cbn [fst snd].
    split; [done|]. split.
    + intros [= Hgo]. apply andb_prop in Hgo as [Hm _]. by apply leb_true.
    + intros distance -> Hd. apply leb_true in Hd. rewrite Hd, andb_true_r.
      rewrite <- leb_true. split; [by intros [= ->]|by intros ->].
  - intros w acts1 acts2 Hw. rewrite exec_all_app.
    assert (∀ acts w0, motion_ordered w0 (exec_all acts w0)) as Hrun.
    { intros acts w0.
      apply (exec_all_respects motion_ordered (fun _ => True)).
      - intros a _. apply perform_motion_ordered.
      - by apply Forall_forall. }
    destruct (Hrun acts1 w Hw) as [_ Hw1].
    by destruct (Hrun acts2 (exec_all acts1 w) Hw1) as [Hle _].
Qed.

Lemma C8_motion_tracker_witness :
  last_motion_time (vars Scenario.start) <= clock Scenario.start ∧
  last_motion_time (vars (exec_all Scenario.attempt_times_out Scenario.start))
  <= last_motion_time
       (vars (exec_all (Scenario.attempt_times_out
                        ++ Scenario.late_result_then_approach)
                Scenario.start)).
Proof.
  destruct C8_motion_tracker as (_ & _ & Hmono).
  assert (last_motion_time (vars Scenario.start) <= clock Scenario.start)
    as Hstart by (vm_compute; discriminate).
  split; [exact Hstart|].
  exact (Hmono Scenario.start Scenario.attempt_times_out
           Scenario.late_result_then_approach Hstart).
Defined.

(** C9. A poll that times the request out clears the pending flag and drops
    only the finished futures from the tracked set: every tracked future
    that is not done stays tracked, the pool is as before (nothing is
    cancelled), and the start time, the result queue, the window, the
    cooldown clock and the trace are as before.  If two tracked futures are
    not done, the call of [start_face_recognition] that follows is rejected,
    although no request is pending. *)
Theorem C9_timeout_keeps_captures w :
  face_recognition_pending (vars w) = true →
  FACE_RECOGNITION_TIMEOUT < clock w - face_recognition_start_time (vars w) →
  let w' := run check_face_recognition_result w in
  face_recognition_pending (vars w') = false ∧
  active_image_futures (vars w') = active_pending w ∧
  (∀ f, f ∈ active_image_futures (vars w) → f ∉ completed w →
        f ∈ active_image_futures (vars w')) ∧
  submitted w' = submitted w ∧ completed w' = completed w ∧
  in_flight w' = in_flight w ∧
  face_recognition_start_time (vars w')
    = face_recognition_start_time (vars w) ∧
  face_result_queue (vars w') = face_result_queue (vars w) ∧
  authorized_door_open (vars w') = authorized_door_open (vars w) ∧
  last_authorized_open_time (vars w') = last_authorized_open_time (vars w) ∧
  last_face_recognition_success (vars w')
    = last_face_recognition_success (vars w) ∧
  trace w' = trace w ∧
  ((2 ≤ size (active_pending w))%nat →
   face_recognition_pending (vars w') = false ∧
   result start_face_recognition w' = Some false ∧
   submitted (run start_face_recognition w') = submitted w ∧
   trace (run start_face_recognition w') = trace w).
Proof.
  intros Hp Hlate. cbv zeta.
  assert (run check_face_recognition_result w
          = with_vars (timed_out (completed w)) w) as ->
    by (unfold run; by rewrite check_face_timeout).
  assert (active_image_futures
            (vars (with_vars (timed_out (completed w)) w)) = active_pending w)
    as Hact by apply reaped_active.
  split; [done|]. split; [exact Hact|]. split.
  { intros f Hf Hnot. rewrite Hact. unfold active_pending.
    apply elem_of_filter. done. }
  do 9 (split; [done|]). intros Hfull.
  assert (active_pending (with_vars (timed_out (completed w)) w)
          = active_pending w) as Hsame.
  { unfold active_pending at 1. rewrite Hact. unfold active_pending.
    cbn. apply leibniz_equiv. set_solver. }
  unfold result, run. rewrite start_face_rejected by (by rewrite Hsame).
  done.
Qed.

Lemma C9_timeout_keeps_captures_witness :
  let w := exec_all Scenario.two_stuck_captures Scenario.start in
  let w' := run check_face_recognition_result w in
  face_recognition_pending (vars w') = false ∧
  size (active_image_futures (vars w')) = 2%nat ∧
  result start_face_recognition w' = Some false.
Proof.
  cbv zeta.
  destruct (C9_timeout_keeps_captures
              (exec_all Scenario.two_stuck_captures Scenario.start))
    as (Hp & Hact & _ & _ & _ & _ & _ & _ & _ & _ & _ & _ & Hreject).
  - vm_compute. reflexivity.
  - vm_compute. reflexivity.
  - split; [exact Hp|]. split.
    + rewrite Hact. vm_compute. reflexivity.
    + apply Hreject. vm_compute. lia.
Defined.

(** C10. A poll made while no request is pending returns False and leaves
    the whole world as it was: the globals (authorized flag, window start
    time, cooldown clock, pending flag, tracked futures, result queue), the
    pool, the clock and the trace. *)
Theorem C10_idle_poll w :
  face_recognition_pending (vars w) = false →
  check_face_recognition_result w = (Some false, w).
Proof. apply check_face_idle. Qed.

Lemma C10_idle_poll_witness :
  let w := run (on_face_result "alice") Scenario.start in
  check_face_recognition_result w = (Some false, w) ∧
  face_result_queue (vars w) = ["alice"%string].
Proof.
  cbv zeta. split; [|reflexivity].
  apply (C10_idle_poll (run (on_face_result "alice") Scenario.start)).
  reflexivity.
Defined.

(** * Further properties of the controller *)

(** ** The card reader and the card queue *)

Lemma process_rfid_events_trace reads w :
  trace (run (process_rfid_events reads) w)
  = trace w ++ card_calls (clock w) (vars w).
Proof.
  unfold card_calls.
  destruct (rfid_queue (vars w)) as [|[authorized u] rest] eqn:Hq.
  { unfold process_rfid_events, run. mstep. rewrite Hq. cbn.
    by rewrite app_nil_r. }
  destruct (truthy u) eqn:Hu.
  - destruct authorized.
    + by destruct (process_rfid_events_authorized w u rest reads Hq Hu)
        as (Ht & _ & _).
    + unfold run. by rewrite (process_rfid_events_denied w u rest reads Hq Hu).
  - unfold process_rfid_events, run. mstep. rewrite Hq. mstep. rewrite Hu.
    cbn. by rewrite app_nil_r.
Qed.

Lemma rfid_reads_queue rs w :
  exec_all (map RfidRead rs) w
  = with_vars (set_rfid_queue (rfid_queue (vars w) ++ queued_reads rs)) w.
Proof.
  revert w. induction rs as [|r rs IH]; intros w.
  - cbn. rewrite app_nil_r. by destruct w as [[]].
  - cbn [map exec_all fold_left]. fold (exec_all (map RfidRead rs)).
    rewrite IH. destruct r as [|authorized u]; [done|].
    unfold exec, run. cbn. destruct (truthy u); cbn; [|done].
    by rewrite <- app_assoc.
Qed.

(** X1. The reader thread queues its reads in the order it makes them,
    skipping the reads that raise and the reads without a UID, and changes
    nothing else; so every event in the queue of any execution carries a
    truthy UID. *)
Theorem X1_reader_queues_in_order :
  (∀ rs w,
     exec_all (map RfidRead rs) w
     = with_vars (set_rfid_queue (rfid_queue (vars w) ++ queued_reads rs)) w) ∧
  (∀ rs, Forall (fun e => truthy (snd e) = true) (queued_reads rs)) ∧
  (∀ t0 acts,
     Forall (fun e => truthy (snd e) = true)
       (rfid_queue (vars (exec_all acts (initial_world t0))))).
Proof.
  split; [exact rfid_reads_queue|]. split.
  - intros rs. induction rs as [|[|authorized u] rs IH]; cbn; try done.
    destruct (truthy u) eqn:Hu; [|done]. by constructor.
  - intros t0 acts. apply (queue_ok_reachable t0 acts).
Qed.

(** X2. A call of [process_rfid_events] takes at most one event: the queue it
    leaves is the tail of the queue it finds, whatever the event is and
    whether or not the card-removal loop ends.  On an empty queue the call
    returns at once and changes nothing.  In any execution, a call that
    finds an event answers it with exactly one notification, AUTHORIZED_CARD
    or UNAUTHORIZED_CARD. *)
Theorem X2_one_card_event_per_call :
  (∀ w reads,
     rfid_queue (vars (run (process_rfid_events reads) w))
     = tail (rfid_queue (vars w))) ∧
  (∀ w reads,
     rfid_queue (vars w) = [] → process_rfid_events reads w = (Some (), w)) ∧
  (∀ t0 acts reads,
     let w := exec_all acts (initial_world t0) in
     let calls := appended w (run (process_rfid_events reads) w) in
     rfid_queue (vars w) ≠ [] →
     (count_status AUTHORIZED_CARD calls
      + count_status UNAUTHORIZED_CARD calls = 1)%nat).
Proof.
  split; [|split].
  - intros w reads. apply process_rfid_events_queue.
  - intros w reads Hq. unfold process_rfid_events. mstep. by rewrite Hq.
  - intros t0 acts reads. cbv zeta. intros Hq.
    pose proof (queue_ok_reachable t0 acts) as Hok. unfold queue_ok in Hok.
    rewrite (appended_app _ _ _ (process_rfid_events_trace reads _)).
    unfold card_calls.
    destruct (rfid_queue (vars (exec_all acts (initial_world t0))))
      as [|[authorized u] rest]; [done|].
    inversion Hok as [|? ? Hu _]. cbn in Hu. rewrite Hu.
    by destruct authorized.
Qed.

Lemma X2_one_card_event_per_call_witness :
  let w := exec_all [RfidRead (ReadCard false (Some "DEADBEEF00"%string))]
             (initial_world 100) in
  let calls := appended w (run (process_rfid_events []) w) in
  rfid_queue (vars w) ≠ [] ∧
  (count_status AUTHORIZED_CARD calls
   + count_status UNAUTHORIZED_CARD calls = 1)%nat.
Proof.
  cbv zeta. destruct X2_one_card_event_per_call as (_ & _ & Hone).
  assert (rfid_queue
            (vars (exec_all
                     [RfidRead (ReadCard false (Some "DEADBEEF00"%string))]
                     (initial_world 100))) ≠ []) as Hq
    by (vm_compute; discriminate).
  split; [exact Hq|].
  exact (Hone 100 [RfidRead (ReadCard false (Some "DEADBEEF00"%string))] []
           Hq).
Defined.

(** ** How long a card holds the main loop *)

Lemma wait_card_removed_present present r rest w :
  Forall (fun r => ends_wait r = false) present →
  ends_wait r = true →
  ∃ t, t == clock w + total_blocked (present ++ [r])
            + inject_Z (Z.of_nat (length present)) * 0.1 ∧
       wait_card_removed (present ++ r :: rest) w = (Some (), with_clock t w).
Proof.
  intros Hpresent Hr. revert w.
  induction Hpresent as [|p present Hp _ IH]; intros w.
  - exists (clock w + blocked r). split.
    { change (inject_Z (Z.of_nat (length (@nil blocking_read)))) with 0.
      cbn [app total_blocked]. ring. }
    cbn [app]. rewrite wait_card_removed_cons. unfold ends_wait in Hr.
    destruct (answer r) as [|a u]; [done|]. by rewrite Hr.
  - cbn [app]. rewrite wait_card_removed_cons. unfold ends_wait in Hp.
    destruct (answer p) as [|a u]; [done|]. rewrite Hp.
    destruct (IH (with_clock (clock w + blocked p + 0.1) w)) as (t & Ht & ->).
    exists t. split; [|by destruct w]. rewrite Ht.
    cbn [clock with_clock length app total_blocked].
    rewrite Nat2Z.inj_succ, <- Z.add_1_r, inject_Z_plus.
    change (inject_Z 1) with 1. ring.
Qed.

Lemma wait_card_removed_stuck reads w :
  Forall (fun r => ends_wait r = false) reads →
  result (wait_card_removed reads) w = None.
Proof.
  intros Hreads. revert w. induction Hreads as [|p reads Hp _ IH]; intros w.
  - done.
  - unfold result. rewrite wait_card_removed_cons. unfold ends_wait in Hp.
    destruct (answer p) as [|a u]; [done|]. rewrite Hp. apply IH.
Qed.

(** X3. An authorized card holds [process_rfid_events] for at least the two
    seconds of the door, the time for which the card reads block, a tenth
    of a second for every read that still sees the card, and half a second
    more: with [k] reads that see the card before the first read that sees
    none (or raises), the call returns, and not before
    [2 + 0.1 k + 0.5] seconds and the blocking time of those [k + 1] reads
    have passed.  While every read sees the card the call does not
    return. *)
Theorem X3_card_hold_time w u queue_rest :
  rfid_queue (vars w) = (true, u) :: queue_rest →
  truthy u = true →
  (∀ present r rest,
     Forall (fun r => ends_wait r = false) present →
     ends_wait r = true →
     result (process_rfid_events (present ++ r :: rest)) w = Some () ∧
     clock w + 2 + total_blocked (present ++ [r])
       + inject_Z (Z.of_nat (length present)) * 0.1 + 0.5
     <= clock (run (process_rfid_events (present ++ r :: rest)) w)) ∧
  (∀ reads,
     Forall (fun r => ends_wait r = false) reads →
     result (process_rfid_events reads) w = None).
Proof.
  intros Hq Hu. split.
  - intros present r rest Hpresent Hr.
    unfold process_rfid_events, result, run. mstep. rewrite Hq. mstep.
    rewrite Hu. mstep.
    match goal with |- context [wait_card_removed _ ?w1] =>
      destruct (wait_card_removed_present present r rest w1 Hpresent Hr)
        as (t & Ht & ->) end.
    cbn in *. split; [done|]. rewrite Ht. apply Qle_lteq. right. ring.
  - intros reads Hreads.
    unfold process_rfid_events, result. mstep. rewrite Hq. mstep.
    rewrite Hu. mstep.
    match goal with |- context [wait_card_removed _ ?w1] =>
      pose proof (wait_card_removed_stuck reads w1 Hreads) as Hw;
      unfold result in Hw; destruct (wait_card_removed reads w1) as [r w2] end.
    cbn in Hw. by subst r.
Qed.

Lemma X3_card_hold_time_witness :
  let w := exec_all [RfidRead (ReadCard true (Some "0C00201B99"%string))]
             (initial_world 100) in
  let seen := BlockingRead 1 2 (ReadCard true (Some "0C00201B99"%string)) in
  let gone := BlockingRead 1 2 (ReadCard false None) in
  result (process_rfid_events [seen; seen; gone]) w = Some () ∧
  104.2 <= clock (run (process_rfid_events [seen; seen; gone]) w).
Proof.
  cbv zeta.
  destruct (X3_card_hold_time
              (exec_all [RfidRead (ReadCard true (Some "0C00201B99"%string))]
                 (initial_world 100))
              (Some "0C00201B99"%string) [] eq_refl eq_refl) as [Hret _].
  destruct (Hret [BlockingRead 1 2 (ReadCard true (Some "0C00201B99"%string));
                  BlockingRead 1 2 (ReadCard true (Some "0C00201B99"%string))]
              (BlockingRead 1 2 (ReadCard false None)) [])
    as [Hres Hclock].
  - repeat constructor.
  - reflexivity.
  - split; [exact Hres|]. eapply Qle_trans; [|exact Hclock].
    vm_compute. discriminate.
Defined.

(** ** The alarm monitor beyond one poll *)

#[local] Instance authorized_stays_preorder : PreOrder authorized_stays.
Proof.
  split.
  - by intros w Hw.
  - intros w1 w2 w3 H12 H23 Hw1. destruct (H12 Hw1) as [Hw2 Hc1].
    destruct (H23 Hw2) as [Hw3 Hc2]. split; [done|congruence].
Qed.

Ltac authorized_prim :=
  unfold authorized_stays; cbn; repeat case_match; cbn;
  rewrite ?count_status_app; cbn; intros; split; (done || lia).

Lemma perform_authorized_stays a :
  reads_closed a = false → respects authorized_stays (perform a).
Proof.
  intros Hopen.
  assert ((∃ reading, a = AlarmPoll reading) ∨ ∀ reading, a ≠ AlarmPoll reading)
    as [[reading ->]|Hother] by (destruct a; eauto).
  - intros w Hup. cbn [perform].
    rewrite alarm_poll_quiet; [done| |].
    + intros (_ & Hdown & _). congruence.
    + intros door_state -> ->. done.
  - destruct a; try (by edestruct Hother); clear Hother Hopen;
      autounfold with controller; respects_with authorized_prim.
Qed.

(** X4. While the authorized flag is up the alarm is never raised, however
    long the door stays open: in any execution in which the monitor never
    reads the door closed, started with the flag up, the flag stays up and
    no PHYSICAL_ALARM is sent, also long after
    AUTHORIZED_DOOR_OPEN_INTERVAL. *)
Theorem X4_authorized_door_never_alarms w acts :
  authorized_door_open (vars w) = true →
  Forall (fun a => reads_closed a = false) acts →
  authorized_door_open (vars (exec_all acts w)) = true ∧
  count_status PHYSICAL_ALARM (trace (exec_all acts w))
  = count_status PHYSICAL_ALARM (trace w).
Proof.
  intros Hup Hacts.
  by apply (exec_all_respects authorized_stays
              (fun a => reads_closed a = false) perform_authorized_stays).
Qed.

Lemma X4_authorized_door_never_alarms_witness :
  let w := exec_all [RfidRead (ReadCard true (Some "0C00201B99"%string));
                     ProcessRfid Scenario.card_removed] Scenario.start in
  let acts := [Elapse 60 1; AlarmPoll (Some 0%Z); AlarmPoll (Some 0%Z)] in
  AUTHORIZED_DOOR_OPEN_INTERVAL
    < clock (exec_all [Elapse 60 1] w) - last_authorized_open_time (vars w) ∧
  count_status PHYSICAL_ALARM (trace (exec_all acts w)) = 0%nat.
Proof.
  cbv zeta. split; [vm_compute; reflexivity|].
  destruct (X4_authorized_door_never_alarms
    (exec_all [RfidRead (ReadCard true (Some "0C00201B99"%string));
               ProcessRfid Scenario.card_removed] Scenario.start)
    [Elapse 60 1; AlarmPoll (Some 0%Z); AlarmPoll (Some 0%Z)])
    as [_ Hcount].
  - vm_compute. reflexivity.
  - repeat constructor.
  - rewrite Hcount. vm_compute. reflexivity.
Defined.

(** X5. Closing the door re-arms the monitor whatever happened before: after
    a poll that reads the door closed, the next poll that reads it open
    raises the alarm and sends one PHYSICAL_ALARM if more than
    AUTHORIZED_DOOR_OPEN_INTERVAL passed since the last authorization, and
    sends nothing otherwise; the alarm flag and the authorized flag that
    the first poll found play no part. *)
Theorem X5_closed_door_rearms w :
  let w1 := run (alarm_monitor_iteration (Some 1%Z)) w in
  let w2 := run (alarm_monitor_iteration (Some 0%Z)) w1 in
  clock w1 = clock w + 0.1 ∧
  (AUTHORIZED_DOOR_OPEN_INTERVAL
     < clock w1 - last_authorized_open_time (vars w) →
   door_open_alarm_triggered (vars w2) = true ∧
   appended w w2 = [alarm_entry w1]) ∧
  (clock w1 - last_authorized_open_time (vars w)
     <= AUTHORIZED_DOOR_OPEN_INTERVAL →
   door_open_alarm_triggered (vars w2) = false ∧
   appended w w2 = []).
Proof.
  cbv zeta. rewrite alarm_poll_closed. split; [done|].
  set (w1 := with_clock (clock w + 0.1) _).
  assert (door_open_alarm_triggered (vars w1) = false) as Hdown by done.
  assert (trace w1 = trace w) as Ht by done.
  split.
  - intros Hlate.
    assert (intrusion w1 (Some 0%Z)) as Hi by (by repeat split).
    rewrite alarm_poll_intrusion by done. split; [done|].
    apply appended_app. cbn [trace with_clock with_vars with_trace].
    by rewrite Ht.
  - intros Hearly.
    assert (¬ intrusion w1 (Some 0%Z)) as Hi.
    { intros (_ & _ & Hlate). cbn in Hlate, Hearly. lra. }
    rewrite alarm_poll_quiet; [|done|by intros ? [= <-]].
    split; [done|]. apply appended_app. cbn. by rewrite app_nil_r.
Qed.

Lemma X5_closed_door_rearms_witness :
  let w := exec_all Scenario.door_held_open Scenario.start in
  door_open_alarm_triggered (vars w) = true ∧
  count_status PHYSICAL_ALARM
    (trace (exec_all [AlarmPoll (Some 1%Z); AlarmPoll (Some 0%Z)] w)) = 2%nat.
Proof.
  cbv zeta.
  destruct (X5_closed_door_rearms
              (exec_all Scenario.door_held_open Scenario.start))
    as (_ & Hlate & _).
  destruct Hlate as [_ Hcalls]; [vm_compute; reflexivity|].
  split; [reflexivity|].
  change (exec_all [AlarmPoll (Some 1%Z); AlarmPoll (Some 0%Z)]
            (exec_all Scenario.door_held_open Scenario.start))
    with (run (alarm_monitor_iteration (Some 0%Z))
            (run (alarm_monitor_iteration (Some 1%Z))
               (exec_all Scenario.door_held_open Scenario.start))).
  unfold appended in Hcalls.
  rewrite <- (take_drop
    (length (trace (exec_all Scenario.door_held_open Scenario.start)))
    (trace _)).
  rewrite Hcalls. vm_compute. reflexivity.
Defined.

(** X6. A poll whose door read raises, or answers anything but 0 and 1,
    changes nothing: no flag, no notification; only the tenth of a second
    of the loop passes. *)
Theorem X6_unreadable_door w reading :
  reading ≠ Some 0%Z → reading ≠ Some 1%Z →
  alarm_monitor_iteration reading w
  = (Some (), with_clock (clock w + 0.1) w).
Proof.
  intros H0 H1. unfold alarm_monitor_iteration.
  destruct reading as [door_state|]; [|done]. mstep.
  destruct (Z.eqb_spec door_state 0) as [->|_]; [done|].
  destruct (Z.eqb_spec door_state 1) as [->|_]; [done|]. done.
Qed.

Lemma X6_unreadable_door_witness :
  alarm_monitor_iteration (Some (-3)%Z) Scenario.start
  = (Some (), with_clock (clock Scenario.start + 0.1) Scenario.start) ∧
  alarm_monitor_iteration None Scenario.start
  = (Some (), with_clock (clock Scenario.start + 0.1) Scenario.start).
Proof.
  split.
  - apply (X6_unreadable_door Scenario.start (Some (-3)%Z)); discriminate.
  - apply (X6_unreadable_door Scenario.start None); discriminate.
Defined.

(** X7. Nothing but the alarm monitor touches the alarm: an execution
    without a poll of the monitor (cards, faces, motion, time) leaves the
    alarm flag as it was and sends no PHYSICAL_ALARM.  In particular an
    authorized card shown after the alarm was raised does not lower it. *)
Theorem X7_alarm_owned_by_monitor w acts :
  Forall (fun a => is_alarm_poll a = false) acts →
  door_open_alarm_triggered (vars (exec_all acts w))
  = door_open_alarm_triggered (vars w) ∧
  count_status PHYSICAL_ALARM (trace (exec_all acts w))
  = count_status PHYSICAL_ALARM (trace w).
Proof.
  intros Hacts.
  apply (exec_all_respects alarm_untouched
           (fun a => is_alarm_poll a = false)); [|done].
  intros a Ha. apply perform_alarm_untouched. by intros reading ->.
Qed.

Lemma X7_alarm_owned_by_monitor_witness :
  let w := exec_all Scenario.door_held_open Scenario.start in
  door_open_alarm_triggered (vars w) = true ∧
  door_open_alarm_triggered
    (vars (exec_all Scenario.card_then_approach w)) = true.
Proof.
  cbv zeta. split; [reflexivity|].
  destruct (X7_alarm_owned_by_monitor
              (exec_all Scenario.door_held_open Scenario.start)
              Scenario.card_then_approach) as [Hflag _].
  - repeat constructor.
  - rewrite Hflag. reflexivity.
Defined.

(** ** The door *)

Lemma servo_commands_app tr1 tr2 :
  servo_commands (tr1 ++ tr2) = servo_commands tr1 ++ servo_commands tr2.
Proof.
  induction tr1 as [|e tr1 IH]; cbn; [done|].
  destruct (ev e); cbn; by rewrite ?IH.
Qed.

Lemma door_cycles_add k1 k2 :
  door_cycles (k1 + k2) = door_cycles k1 ++ door_cycles k2.
Proof. induction k1 as [|k1 IH]; cbn; [done|]. by rewrite IH. Qed.

#[local] Instance door_cycled_preorder : PreOrder door_cycled.
Proof.
  split.
  - intros w. exists 0%nat. cbn. by rewrite app_nil_r, Nat.add_0_r.
  - intros w1 w2 w3 (k1 & Hs1 & Hc1) (k2 & Hs2 & Hc2). exists (k1 + k2)%nat.
    rewrite Hs2, Hs1, Hc2, Hc1, door_cycles_add, <- app_assoc. split; [done|lia].
Qed.

Lemma door_cycled_appended w w' new k :
  trace w' = trace w ++ new →
  servo_commands new = door_cycles k →
  count_status AUTHORIZED_CARD new = k →
  door_cycled w w'.
Proof.
  intros Ht Hs Hc. exists k.
  by rewrite Ht, servo_commands_app, count_status_app, Hs, Hc.
Qed.

Lemma process_rfid_events_door reads :
  respects door_cycled (process_rfid_events reads).
Proof.
  intros w. pose proof (process_rfid_events_trace reads w) as Ht.
  unfold card_calls in Ht.
  destruct (rfid_queue (vars w)) as [|[authorized u] rest].
  { by apply (door_cycled_appended _ _ _ 0%nat Ht). }
  destruct (truthy u); [|by apply (door_cycled_appended _ _ _ 0%nat Ht)].
  destruct authorized.
  - by apply (door_cycled_appended _ _ _ 1%nat Ht).
  - by apply (door_cycled_appended _ _ _ 0%nat Ht).
Qed.

Lemma check_face_door : respects door_cycled check_face_recognition_result.
Proof.
  intros w. unfold run.
  destruct (check_face_cases w)
    as [[_ ->]|[_ [[_ ->]|[_ [[_ ->]|[(? & _ & ->)|(? & ? & _ & _ & ->)]]]]]];
    cbn [snd].
  1-4: (apply (door_cycled_appended _ _ [] 0%nat); [|done..]; cbn;
        by rewrite app_nil_r).
  cbv zeta. eapply (door_cycled_appended _ _ _ 1%nat); [reflexivity|done..].
Qed.

#[local] Hint Resolve process_rfid_events_door check_face_door : frame.

Ltac door_prim :=
  unfold door_cycled; cbn; repeat case_match; cbn;
  exists 0%nat; rewrite ?servo_commands_app, ?count_status_app; cbn;
  rewrite ?app_nil_r; split; (done || lia).

Lemma perform_door_cycled a : respects door_cycled (perform a).
Proof.
  destruct a; cbn [perform];
    unfold on_face_result, pir_motion_callback, pir_watchdog_iteration,
      alarm_monitor_iteration, rfid_reader_iteration, main_loop_iteration,
      proximity_gate, check_motion_and_distance, start_face_recognition,
      image_done;
    respects_with door_prim.
Qed.

(** X8. In every execution the servo commands are whole door cycles: an
    open (180) is always followed by its close (0), and there are exactly as
    many cycles as AUTHORIZED_CARD notifications.  No other path than an
    authorized card or a recognized face moves the servo. *)
Theorem X8_door_cycles t0 acts :
  let w := exec_all acts (initial_world t0) in
  servo_commands (trace w)
  = door_cycles (count_status AUTHORIZED_CARD (trace w)).
Proof.
  cbv zeta.
  destruct (exec_all_respects door_cycled (fun _ => True)
              (fun a _ => perform_door_cycled a) acts
              (proj2 (Forall_forall _ _) (fun _ _ => I)) (initial_world t0))
    as (k & Hs & Hc).
  cbn in Hs, Hc. by rewrite Hs, Hc.
Qed.

(** ** The pool of capture tasks *)

#[local] Instance pool_exact_kept_preorder : PreOrder pool_exact_kept.
Proof.
  split.
  - intros w Hok. exact Hok.
  - intros w1 w2 w3 H12 H23 Hok. by apply H23, H12.
Qed.

Lemma check_face_pool_exact :
  respects pool_exact_kept check_face_recognition_result.
Proof.
  intros w (Hsub & Hok & Hopen). split; [|split].
  - unfold run.
    destruct (check_face_cases w)
      as [[_ ->]|[_ [[_ ->]|[_ [[_ ->]|[(? & _ & ->)|(? & ? & _ & _ & ->)]]]]]];
      cbn; set_solver.
  - by apply check_face_pool.
  - unfold run.
    by destruct (check_face_cases w)
      as [[_ ->]|[_ [[_ ->]|[_ [[_ ->]|[(? & _ & ->)|(? & ? & _ & _ & ->)]]]]]].
Qed.

Lemma start_face_pool_exact : respects pool_exact_kept start_face_recognition.
Proof.
  intros w (Hsub & Hok & Hopen). split; [|split].
  - unfold run. destruct (start_face_cases w) as [->|(_ & _ & ->)];
      unfold active_pending; cbn; set_solver.
  - by apply start_face_pool.
  - unfold run. by destruct (start_face_cases w) as [->|(_ & _ & ->)].
Qed.

Lemma image_done_pool_exact f : respects pool_exact_kept (image_done f).
Proof.
  intros w (Hsub & Hok & Hopen). split; [|split].
  - unfold run, image_done. by destruct (decide (f ∈ submitted w)).
  - by apply image_done_pool.
  - unfold run, image_done. by destruct (decide (f ∈ submitted w)).
Qed.

#[local] Hint Resolve check_face_pool_exact start_face_pool_exact
  image_done_pool_exact : frame.

Ltac pool_exact_prim :=
  unfold pool_exact_kept, pool_exact, pool_ok, in_flight, active_pending; cbn;
  repeat case_match; by cbn.

Lemma perform_pool_exact_kept a : respects pool_exact_kept (perform a).
Proof.
  destruct a; cbn [perform];
    unfold on_face_result, pir_motion_callback, pir_watchdog_iteration,
      alarm_monitor_iteration, rfid_reader_iteration, process_rfid_events,
      main_loop_iteration, proximity_gate, check_motion_and_distance;
    respects_with pool_exact_prim.
Qed.

Lemma pool_exact_reachable t0 acts :
  pool_exact (exec_all acts (initial_world t0)).
Proof.
  apply (exec_all_respects pool_exact_kept (fun _ => True)).
  - intros a _. apply perform_pool_exact_kept.
  - by apply Forall_forall.
  - split; [done|]. split; [apply pool_ok_initial|done].
Qed.

Lemma pool_exact_in_flight w : pool_exact w → active_pending w = in_flight w.
Proof.
  intros (Hsub & [Htracked _] & _). apply leibniz_equiv.
  unfold active_pending, in_flight in *. set_solver.
Qed.

(** X9. The count that [start_face_recognition] tests is exact: in every
    execution the tracked futures that are not done are precisely the
    capture tasks in flight.  So a call is accepted (returns True and
    submits one task) if and only if fewer than two tasks are in flight:
    the pool never refuses while it has room. *)
Theorem X9_pool_admission t0 acts :
  let w := exec_all acts (initial_world t0) in
  active_pending w = in_flight w ∧
  (result start_face_recognition w = Some true ↔ (size (in_flight w) < 2)%nat) ∧
  (result start_face_recognition w = Some true →
   count_submits (appended w (run start_face_recognition w)) = 1%nat).
Proof.
  cbv zeta. pose proof (pool_exact_reachable t0 acts) as Hexact.
  pose proof (pool_exact_in_flight _ Hexact) as Heq.
  destruct Hexact as (_ & _ & Hopen). split; [exact Heq|].
  rewrite <- Heq. unfold result, run.
  destruct (Nat.leb_spec 2
              (size (active_pending (exec_all acts (initial_world t0)))))
    as [Hfull|Hroom].
  - rewrite start_face_rejected by done. cbn. split; [|done].
    split; [done|lia].
  - rewrite (start_face_started _ Hroom Hopen). cbn [fst snd]. split; [done|].
    intros _. erewrite appended_app; [|reflexivity]. done.
Qed.

Lemma X9_pool_admission_witness :
  let w := exec_all Scenario.attempt_times_out Scenario.start in
  size (in_flight w) = 1%nat ∧
  result start_face_recognition w = Some true ∧
  count_submits (appended w (run start_face_recognition w)) = 1%nat.
Proof.
  cbv zeta.
  destruct (X9_pool_admission 100 Scenario.attempt_times_out)
    as (_ & Hiff & Hone).
  assert (result start_face_recognition
            (exec_all Scenario.attempt_times_out Scenario.start) = Some true)
    as Hacc by (apply Hiff; vm_compute; lia).
  split; [vm_compute; reflexivity|]. split; [exact Hacc|exact (Hone Hacc)].
Defined.

(** X10. What a call of [start_face_recognition] does, from any state.  It
    is accepted exactly when fewer than two tracked futures are not done
    and the executor takes the task; then the future it tracks was never
    submitted before, the request is pending and its start time is the
    time of the call.  When the executor raises, the call returns False and
    the pending flag and the start time are as before.  In every case the
    futures that are done leave the tracked set. *)
Theorem X10_start_face_recognition w :
  let w' := run start_face_recognition w in
  (result start_face_recognition w = Some true ↔
   (size (active_pending w) < 2)%nat ∧ executor_open w = true) ∧
  (result start_face_recognition w = Some true →
   (fresh (submitted w) ∉ submitted w) ∧
   submitted w' = {[fresh (submitted w)]} ∪ submitted w ∧
   active_image_futures (vars w')
   = {[fresh (submitted w)]} ∪ active_pending w ∧
   face_recognition_pending (vars w') = true ∧
   face_recognition_start_time (vars w') = clock w) ∧
  (result start_face_recognition w = Some false →
   submitted w' = submitted w ∧ trace w' = trace w ∧
   active_image_futures (vars w') = active_pending w ∧
   face_recognition_pending (vars w') = face_recognition_pending (vars w) ∧
   face_recognition_start_time (vars w')
   = face_recognition_start_time (vars w)) ∧
  (∃ accepted, result start_face_recognition w = Some accepted).
Proof.
  cbv zeta. unfold result, run.
  destruct (Nat.leb_spec 2 (size (active_pending w))) as [Hfull|Hroom].
  { rewrite start_face_rejected by done. cbn [fst snd].
    split; [|split; [done|split; [done|eauto]]].
    split; [done|]. intros [Hroom _]. lia. }
  destruct (executor_open w) eqn:Hopen.
  - rewrite (start_face_started _ Hroom Hopen). cbn [fst snd].
    split; [done|]. split; [|split; [done|eauto]].
    intros _. split; [apply is_fresh|done].
  - rewrite start_face_submit_fails by done. cbn [fst snd].
    split; [|split; [done|split; [done|eauto]]].
    split; [done|]. by intros [_ ?].
Qed.

Lemma X10_start_face_recognition_witness :
  let w := World initial_globals 100 0 100 ∅ ∅ false [] in
  result start_face_recognition w = Some false ∧
  face_recognition_pending (vars (run start_face_recognition w)) = false.
Proof.
  cbv zeta.
  destruct (X10_start_face_recognition
              (World initial_globals 100 0 100 ∅ ∅ false []))
    as (_ & _ & Hrej & _).
  assert (result start_face_recognition
            (World initial_globals 100 0 100 ∅ ∅ false []) = Some false)
    as Hres by (vm_compute; reflexivity).
  destruct (Hrej Hres) as (_ & _ & _ & Hp & _).
  split; [exact Hres|]. rewrite Hp. reflexivity.
Defined.

(** ** Verification results *)

(** X11. Results are taken oldest first, one per poll: a poll of a pending
    request that has not timed out takes the head of the queue, to which
    [on_face_result] adds at the back, and leaves the rest queued.  The
    answer is True, and the door is cycled once, for every payload other
    than the exact string "unknown" (the empty payload included); for
    "unknown" the poll returns False, makes no call and leaves the
    authorized flag, the window start time and the cooldown clock as they
    were, so that no cooldown follows. *)
Theorem X11_results_oldest_first w payload oldest rest :
  face_recognition_pending (vars w) = true →
  clock w - face_recognition_start_time (vars w) <= FACE_RECOGNITION_TIMEOUT →
  face_result_queue (vars w) ++ [payload] = oldest :: rest →
  let w1 := run (on_face_result payload) w in
  let w2 := run check_face_recognition_result w1 in
  result check_face_recognition_result w1
  = Some (negb (String.eqb oldest "unknown")) ∧
  face_result_queue (vars w2) = rest ∧
  face_recognition_pending (vars w2) = false ∧
  servo_commands (appended w w2)
  = (if String.eqb oldest "unknown" then [] else [180%Z; 0%Z]) ∧
  count_status AUTHORIZED_CARD (appended w w2)
  = (if String.eqb oldest "unknown" then 0%nat else 1%nat) ∧
  (oldest = "unknown"%string →
   authorized_door_open (vars w2) = authorized_door_open (vars w) ∧
   last_authorized_open_time (vars w2) = last_authorized_open_time (vars w) ∧
   last_face_recognition_success (vars w2)
   = last_face_recognition_success (vars w)).
Proof.
  intros Hp Hlate Hq. cbv zeta.
  set (w1 := run (on_face_result payload) w).
  assert (face_recognition_pending (vars w1) = true) as Hp1 by done.
  assert (clock w1 - face_recognition_start_time (vars w1)
          <= FACE_RECOGNITION_TIMEOUT) as Hlate1 by done.
  assert (face_result_queue (vars w1) = oldest :: rest) as Hq1 by done.
  assert (trace w1 = trace w) as Ht1 by done.
  assert (authorized_door_open (vars w1) = authorized_door_open (vars w) ∧
          last_authorized_open_time (vars w1)
          = last_authorized_open_time (vars w) ∧
          last_face_recognition_success (vars w1)
          = last_face_recognition_success (vars w)) as (Ha1 & Hl1 & Hs1)
    by done.
  clearbody w1. unfold result, run.
  destruct (String.eqb_spec oldest "unknown") as [->|Hname].
  - rewrite (check_face_unknown w1 rest) by done. cbn [fst snd negb].
    assert (appended w (with_vars
              (fun s => set_face_recognition_pending false
                          (set_face_result_queue rest
                             (reaped (completed w1) s))) w1) = []) as ->.
    { apply appended_app. cbn [trace with_vars]. by rewrite Ht1, app_nil_r. }
    do 5 (split; [done|]). intros _. cbn. by rewrite Ha1, Hl1, Hs1.
  - rewrite (check_face_recognized w1 oldest rest) by done.
    cbn [fst snd negb].
    erewrite appended_app; [|cbn [trace with_trace]; rewrite Ht1; reflexivity].
    do 5 (split; [done|]). intros ->. done.
Qed.

Lemma X11_results_oldest_first_witness :
  let w := exec_all [PirMotion;
                     MainIteration Scenario.card_removed (Distance (Some 30))]
             Scenario.start in
  let w1 := run (on_face_result "") w in
  result check_face_recognition_result w1 = Some true ∧
  servo_commands (appended w (run check_face_recognition_result w1))
  = [180%Z; 0%Z].
Proof.
  cbv zeta.
  destruct (X11_results_oldest_first
    (exec_all [PirMotion;
               MainIteration Scenario.card_removed (Distance (Some 30))]
       Scenario.start) ""%string ""%string [])
    as (Hres & _ & _ & Hservo & _).
  - vm_compute. reflexivity.
  - vm_compute. discriminate.
  - vm_compute. reflexivity.
  - split; [exact Hres|exact Hservo].
Defined.

(** ** The main loop *)

(** X12. While a request waits (pending, not timed out, no result queued)
    and no card is queued, an iteration of the main loop makes no call and
    starts nothing: the request stays pending with its start time, the last
    attempt time is kept, the finished futures leave the tracked set, and
    the only other change is the clock, by 0.05 s, or by 1.05 s when the
    integer part of the start time is a multiple of 30 (the status line). *)
Theorem X12_main_loop_waits w reads dist :
  rfid_queue (vars w) = [] →
  face_recognition_pending (vars w) = true →
  clock w - face_recognition_start_time (vars w) <= FACE_RECOGNITION_TIMEOUT →
  face_result_queue (vars w) = [] →
  main_loop_iteration reads dist w
  = (Some (),
     with_clock (if (QTime.to_int (clock w) mod 30 =? 0)%Z
                 then clock w + 1 + 0.05 else clock w + 0.05)
       (with_vars (reaped (completed w)) w)).
Proof.
  intros Hcards Hp Hlate Hq.
  assert (process_rfid_events reads w = (Some (), w)) as Hcard.
  { unfold process_rfid_events. mstep. by rewrite Hcards. }
  assert (run (process_rfid_events reads) w = w) as Hcard_run
    by (unfold run; by rewrite Hcard).
  assert (result (process_rfid_events reads) w = Some ()) as Hcard_res
    by (unfold result; by rewrite Hcard).
  pose proof (check_face_waiting w Hp Hlate Hq) as Hpoll.
  assert (run check_face_recognition_result w
          = with_vars (reaped (completed w)) w) as Hpoll_run
    by (unfold run; by rewrite Hpoll).
  assert (result check_face_recognition_result w = Some false) as Hpoll_res
    by (unfold result; by rewrite Hpoll).
  assert (face_recognition_pending (reaped (completed w) (vars w)) = true)
    as Hp' by (by rewrite <- Hp).
  assert (run (main_loop_iteration reads dist) w
          = with_clock (if (QTime.to_int (clock w) mod 30 =? 0)%Z
                        then clock w + 1 + 0.05 else clock w + 0.05)
              (with_vars (reaped (completed w)) w)) as Hrun.
  { rewrite main_loop_iteration_stages, Hcard_res, Hcard_run. cbv zeta.
    rewrite Hpoll_run. cbn [vars with_vars]. rewrite Hp'. cbn [negb andb].
    by rewrite main_loop_tail_run. }
  assert (result (main_loop_iteration reads dist) w = Some ()) as Hres.
  { unfold main_loop_iteration.
    rewrite result_bind. cbn [result run time_time fst snd].
    rewrite result_bind, Hcard_res, Hcard_run.
    rewrite result_bind, Hpoll_res, Hpoll_run.
    rewrite result_bind, proximity_gate_run.
    unfold result at 1. rewrite proximity_gate_eq.
    cbn [fst vars with_vars]. rewrite Hp'. cbn [negb andb].
    rewrite result_bind. cbn [result ret fst run snd].
    rewrite result_bind.
    by destruct (QTime.to_int (clock w) mod 30 =? 0)%Z. }
  unfold result, run in Hrun, Hres.
  destruct (main_loop_iteration reads dist w) as [r w']. cbn in Hrun, Hres.
  by subst.
Qed.

Lemma X12_main_loop_waits_witness :
  let w := exec_all [PirMotion;
                     MainIteration Scenario.card_removed (Distance (Some 30))]
             Scenario.start in
  trace (run (main_loop_iteration [] (Distance (Some 30))) w) = trace w ∧
  clock (run (main_loop_iteration [] (Distance (Some 30))) w)
  == clock w + 0.05.
Proof.
  cbv zeta.
  pose proof (X12_main_loop_waits
    (exec_all [PirMotion;
               MainIteration Scenario.card_removed (Distance (Some 30))]
       Scenario.start) [] (Distance (Some 30))) as H.
  unfold run. rewrite H.
  - split; vm_compute; reflexivity.
  - vm_compute. reflexivity.
  - vm_compute. reflexivity.
  - vm_compute. discriminate.
  - vm_compute. reflexivity.
Defined.

(** X13. An iteration of the main loop submits at most one capture task.  It
    submits none unless it records its own start time as the time of the
    last attempt, which it does only when that start time is more than
    IMAGE_COOLDOWN (3 s) after the previous one.  (The time is recorded
    before [start_face_recognition] is called, so also when the call
    refuses the attempt.) *)
Theorem X13_one_attempt_per_iteration w reads dist :
  let w' := run (main_loop_iteration reads dist) w in
  (count_submits (appended w w') ≤ 1)%nat ∧
  ((last_image_attempt w' = last_image_attempt w ∧
    count_submits (appended w w') = 0%nat) ∨
   (last_image_attempt w' = clock w ∧
    IMAGE_COOLDOWN < clock w - last_image_attempt w)).
Proof.
  cbv zeta. rewrite main_loop_iteration_stages.
  destruct (process_rfid_events_attempt reads w) as (Hl1 & new1 & Ht1 & Hn1).
  destruct (result (process_rfid_events reads) w) as [[]|].
  2: { rewrite (appended_app _ _ _ Ht1), Hn1. split; [lia|]. by left. }
  set (w1 := run (process_rfid_events reads) w) in *. cbv zeta.
  destruct (check_face_attempt w1) as (Hl2 & new2 & Ht2 & Hn2).
  set (w2 := run check_face_recognition_result w1) in *.
  set (go := _ && _ && _ && _ && _).
  destruct go eqn:Hgo; subst go.
  - rewrite !andb_true_iff in Hgo.
    destruct Hgo as ((((_ & Hcool) & _) & _) & _).
    apply gtb_true in Hcool. rewrite Hl2, Hl1 in Hcool.
    destruct (main_loop_tail_attempt (clock w)
                (run start_face_recognition
                   (with_last_image_attempt (clock w) w2)))
      as (Hl4 & new4 & Ht4 & Hn4).
    assert (∃ new3,
      trace (run start_face_recognition
               (with_last_image_attempt (clock w) w2)) = trace w2 ++ new3 ∧
      (count_submits new3 ≤ 1)%nat ∧
      last_image_attempt (run start_face_recognition
                            (with_last_image_attempt (clock w) w2)) = clock w)
      as (new3 & Ht3 & Hn3 & Hl3).
    { unfold run.
      destruct (start_face_cases (with_last_image_attempt (clock w) w2))
        as [->|(_ & _ & ->)]; cbn.
      - exists []. rewrite app_nil_r. split; [done|]. split; [cbn; lia|done].
      - eexists. split; [reflexivity|]. split; [cbn; lia|done]. }
    rewrite Hl4, Hl3. erewrite appended_app.
    2: { rewrite Ht4, Ht3, Ht2, Ht1, <- !app_assoc. reflexivity. }
    rewrite !count_submits_app, Hn1, Hn2, Hn4. split; [lia|]. by right.
  - destruct (main_loop_tail_attempt (clock w) w2) as (Hl4 & new4 & Ht4 & Hn4).
    rewrite Hl4, Hl2, Hl1. erewrite appended_app.
    2: { rewrite Ht4, Ht2, Ht1, <- !app_assoc. reflexivity. }
    rewrite !count_submits_app, Hn1, Hn2, Hn4. split; [lia|]. by left.
Qed.

Lemma X13_one_attempt_per_iteration_witness :
  let w := exec_all (Scenario.two_stuck_captures
                     ++ [MainIteration Scenario.card_removed DistanceRaises;
                         PirMotion]) Scenario.start in
  let w' := run (main_loop_iteration Scenario.card_removed
                   (Distance (Some 30))) w in
  (count_submits (appended w w') ≤ 1)%nat ∧
  last_image_attempt w' = clock w ∧
  (size (in_flight w) = 2)%nat.
Proof.
  cbv zeta.
  destruct (X13_one_attempt_per_iteration
    (exec_all (Scenario.two_stuck_captures
               ++ [MainIteration Scenario.card_removed DistanceRaises;
                   PirMotion]) Scenario.start)
    Scenario.card_removed (Distance (Some 30))) as [Hone _].
  split; [exact Hone|]. split; vm_compute; reflexivity.
Defined.

#[local] Instance results_untouched_preorder : PreOrder results_untouched.
Proof.
  split.
  - by intros w.
  - intros w1 w2 w3 (H1 & H2 & H3) (H4 & H5 & H6). repeat split; congruence.
Qed.

Ltac results_prim :=
  unfold results_untouched; cbn; repeat case_match; cbn;
  rewrite ?servo_commands_app, ?count_status_app; cbn;
  rewrite ?app_nil_r; repeat split; (done || lia).

Lemma start_face_results : respects results_untouched start_face_recognition.
Proof. unfold start_face_recognition. respects_with results_prim. Qed.

Lemma main_loop_tail_results ct : respects results_untouched (main_loop_tail ct).
Proof. unfold main_loop_tail. respects_with results_prim. Qed.

Lemma process_rfid_events_authorized_returned w u rest reads :
  rfid_queue (vars w) = (true, u) :: rest →
  truthy u = true →
  result (process_rfid_events reads) w = Some () →
  clock w + 2 + 0.5 <= clock (run (process_rfid_events reads) w).
Proof.
  intros Hq Hu. unfold process_rfid_events, result, run. mstep.
  rewrite Hq. mstep. rewrite Hu. mstep.
  match goal with |- context [wait_card_removed reads ?w1] =>
    destruct (wait_card_removed_effect reads w1) as (r & t & Ht & ->) end.
  cbn in Ht. destruct r; cbn; [|done]. intros _. lra.
Qed.

(** X14. The time a card takes counts against a waiting recognition request.
    When the main loop serves an authorized card while a request has been
    pending for more than 2.5 s, the poll that follows in the same
    iteration finds the request timed out (the card took at least 2.5 s):
    a result that is already queued is not taken, and the door is cycled
    once, for the card only. *)
Theorem X14_card_delays_poll w u queue_rest reads dist :
  rfid_queue (vars w) = (true, u) :: queue_rest →
  truthy u = true →
  Exists (fun r => ends_wait r = true) reads →
  face_recognition_pending (vars w) = true →
  2.5 < clock w - face_recognition_start_time (vars w) →
  let w' := run (main_loop_iteration reads dist) w in
  face_result_queue (vars w') = face_result_queue (vars w) ∧
  servo_commands (trace w') = servo_commands (trace w) ++ [180%Z; 0%Z] ∧
  count_status AUTHORIZED_CARD (trace w')
  = S (count_status AUTHORIZED_CARD (trace w)).
Proof.
  intros Hq Hu Hreads Hp Hlong. cbv zeta.
  rewrite main_loop_iteration_stages.
  assert (result (process_rfid_events reads) w = Some ()) as Hres.
  { apply process_rfid_events_returns. by intros. }
  rewrite Hres. cbv zeta.
  pose proof (process_rfid_events_authorized_returned w u queue_rest reads
                Hq Hu Hres) as Hclock.
  destruct (process_rfid_events_authorized w u queue_rest reads Hq Hu)
    as (Ht1 & Hv1 & _). cbv zeta in Ht1, Hv1.
  set (w1 := run (process_rfid_events reads) w) in *.
  assert (run check_face_recognition_result w1
          = with_vars (timed_out (completed w1)) w1) as Hpoll.
  { unfold run. rewrite check_face_timeout; [done| |].
    - by rewrite Hv1.
    - rewrite Hv1. cbn. unfold FACE_RECOGNITION_TIMEOUT. lra. }
  rewrite Hpoll.
  set (w2 := with_vars (timed_out (completed w1)) w1) in *.
  assert (face_result_queue (vars w2) = face_result_queue (vars w)) as Hq2.
  { subst w2. cbn. by rewrite Hv1. }
  assert (trace w2 = trace w1) as Ht2 by done.
  set (go := _ && _ && _ && _ && _). clearbody go.
  assert (∃ w3, results_untouched w2 w3 ∧
            (if go
             then run start_face_recognition
                    (with_last_image_attempt (clock w) w2)
             else w2) = w3) as (w3 & (Hq3 & Hs3 & Hc3) & ->).
  { eexists. split; [|reflexivity]. destruct go; [|done].
    apply (start_face_results (with_last_image_attempt (clock w) w2)). }
  destruct (main_loop_tail_results (clock w) w3) as (Hq4 & Hs4 & Hc4).
  rewrite Hq4, Hq3, Hq2, Hs4, Hs3, Hc4, Hc3, Ht2, Ht1.
  rewrite servo_commands_app, count_status_app. cbn. split; [done|].
  split; [done|lia].
Qed.

Lemma X14_card_delays_poll_witness :
  let w := exec_all [PirMotion;
                     MainIteration Scenario.card_removed (Distance (Some 30));
                     Elapse 3 1;
                     FaceResult "alice";
                     RfidRead (ReadCard true (Some "0C00201B99"%string))]
             Scenario.start in
  let w' := run (main_loop_iteration Scenario.card_removed DistanceRaises) w in
  face_result_queue (vars w) = ["alice"%string] ∧
  clock w - face_recognition_start_time (vars w) <= FACE_RECOGNITION_TIMEOUT ∧
  face_result_queue (vars w') = ["alice"%string] ∧
  face_recognition_pending (vars w') = false.
Proof.
  cbv zeta.
  destruct (X14_card_delays_poll
    (exec_all [PirMotion;
               MainIteration Scenario.card_removed (Distance (Some 30));
               Elapse 3 1;
               FaceResult "alice";
               RfidRead (ReadCard true (Some "0C00201B99"%string))]
       Scenario.start)
    (Some "0C00201B99"%string) [] Scenario.card_removed DistanceRaises)
    as (Hqueue & _).
  - vm_compute. reflexivity.
  - reflexivity.
  - constructor. reflexivity.
  - vm_compute. reflexivity.
  - vm_compute. reflexivity.
  - split; [vm_compute; reflexivity|]. split; [vm_compute; discriminate|].
    split; [rewrite Hqueue; vm_compute; reflexivity|vm_compute; reflexivity].
Defined.

(** ** The motion record and its watchdog *)

(** X15. [motion_count] counts the callbacks: after any execution it is the
    count before plus the number of times [pir_motion_callback] ran; no
    other step changes it, and nothing resets it. *)
Theorem X15_motion_count acts w :
  motion_count (vars (exec_all acts w))
  = (motion_count (vars w) + Z.of_nat (count_motion acts))%Z.
Proof.
  revert w. induction acts as [|a acts IH]; intros w.
  - cbn. lia.
  - cbn [exec_all fold_left]. fold (exec_all acts). rewrite IH.
    assert (a = PirMotion ∨ a ≠ PirMotion) as [->|Ha]
      by (destruct a; (by left) || by right).
    + cbn. lia.
    + destruct (perform_motion_untouched a Ha w) as [_ Hcount].
      unfold exec. rewrite Hcount. destruct a; try done; cbn; lia.
Qed.

#[local] Instance watchdog_untouched_preorder : PreOrder watchdog_untouched.
Proof.
  split.
  - by intros w.
  - intros w1 w2 w3. unfold watchdog_untouched. congruence.
Qed.

#[local] Instance watchdog_paced_preorder : PreOrder watchdog_paced.
Proof.
  split.
  - intros w Hw. split; [lra|]. split; [done|by left].
  - intros w1 w2 w3 H12 H23 Hw1.
    destruct (H12 Hw1) as (Hc1 & Hw2 & Hp1).
    destruct (H23 Hw2) as (Hc2 & Hw3 & Hp2).
    split; [lra|]. split; [done|].
    destruct Hp1 as [Hp1|Hp1], Hp2 as [Hp2|Hp2].
    + left. congruence.
    + right. by rewrite <- Hp1.
    + right. by rewrite Hp2.
    + right. lra.
Qed.

Ltac watchdog_prim := unfold watchdog_untouched; cbn; repeat case_match; by cbn.

Lemma perform_watchdog_untouched a :
  is_watchdog_poll a = false → respects watchdog_untouched (perform a).
Proof.
  intros Ha. destruct a; try done; clear Ha;
    autounfold with controller; respects_with watchdog_prim.
Qed.

(** One iteration of the watchdog, case by case. *)
Lemma pir_watchdog_iteration_eq direct_read w :
  pir_watchdog_iteration direct_read w =
  if QTime.gtb (clock w - last_check_time w) 30 then
    if pir_callback_active (vars w) then
      (Some (),
       with_clock (clock w + 5)
         (with_last_check_time (clock w)
            (with_vars (set_pir_callback_active false) w)))
    else
      match direct_read with
      | Some _ =>
          (Some (),
           with_clock (clock w + 5)
             (with_last_check_time (clock w)
                (with_vars (set_pir_callback_active false)
                   (with_trace (trace w ++ [Entry ReadPin (clock w) (vars w)])
                      w))))
      | None =>
          (None, with_trace (trace w ++ [Entry ReadPin (clock w) (vars w)]) w)
      end
  else (Some (), with_clock (clock w + 5) w).
Proof.
  unfold pir_watchdog_iteration. mstep.
  destruct (QTime.gtb (clock w - last_check_time w) 30); mstep; [|done].
  destruct (pir_callback_active (vars w)); mstep; [done|].
  by destruct direct_read.
Qed.

Lemma perform_watchdog_paced a : respects watchdog_paced (perform a).
Proof.
  intros w Hw.
  pose proof (perform_clock_advances a w) as Hc. unfold clock_advances in Hc.
  destruct (is_watchdog_poll a) eqn:Ha.
  - destruct a; try done. unfold exec, run in *. cbn [perform] in *.
    rewrite pir_watchdog_iteration_eq in *.
    destruct (QTime.gtb (clock w - last_check_time w) 30) eqn:Hlate.
    + apply gtb_true in Hlate.
      destruct (pir_callback_active (vars w)); [|destruct direct_read];
        cbn in *.
      * split; [lra|]. split; [lra|]. right. lra.
      * split; [lra|]. split; [lra|]. right. lra.
      * split; [lra|]. split; [lra|]. by left.
    + cbn in *. split; [lra|]. split; [lra|]. by left.
  - pose proof (perform_watchdog_untouched a Ha w) as Hsame.
    unfold watchdog_untouched in Hsame. rewrite Hsame.
    split; [done|]. split; [lra|]. by left.
Qed.

(** X16. The watchdog acts only when more than thirty seconds passed since
    its last check.  If [pir_callback_active] is up it clears it, making no
    call.  If the flag is already down it first reads the PIR pin directly
    (one call); when that read raises, the iteration ends there, with the
    flag, the check time and the clock as they were; otherwise the flag is
    cleared.  A check that clears the flag restarts the period.  No other
    global changes.  In any execution, whatever the other threads do, two
    checks that restart the period are more than thirty seconds apart. *)
Theorem X16_watchdog_period :
  (∀ w direct_read,
     let w' := run (pir_watchdog_iteration direct_read) w in
     (clock w - last_check_time w <= 30 →
      pir_watchdog_iteration direct_read w
      = (Some (), with_clock (clock w + 5) w)) ∧
     (30 < clock w - last_check_time w →
      pir_callback_active (vars w) = true →
      result (pir_watchdog_iteration direct_read) w = Some () ∧
      appended w w' = [] ∧
      pir_callback_active (vars w') = false ∧
      last_check_time w' = clock w) ∧
     (30 < clock w - last_check_time w →
      pir_callback_active (vars w) = false →
      appended w w' = [Entry ReadPin (clock w) (vars w)] ∧
      match direct_read with
      | Some _ =>
          result (pir_watchdog_iteration direct_read) w = Some () ∧
          pir_callback_active (vars w') = false ∧
          last_check_time w' = clock w
      | None =>
          result (pir_watchdog_iteration direct_read) w = None ∧
          vars w' = vars w ∧
          last_check_time w' = last_check_time w ∧
          clock w' = clock w
      end) ∧
     vars w'
     = set_pir_callback_active (pir_callback_active (vars w')) (vars w)) ∧
  (∀ w acts,
     last_check_time w <= clock w →
     last_check_time (exec_all acts w) = last_check_time w ∨
     last_check_time w + 30 < last_check_time (exec_all acts w)).
Proof.
  split.
  - intros w direct_read. cbv zeta. unfold result, run.
    rewrite pir_watchdog_iteration_eq.
    destruct (QTime.gtb (clock w - last_check_time w) 30) eqn:Hlate.
    + apply gtb_true in Hlate.
      split; [intros Hearly; lra|].
      destruct (pir_callback_active (vars w)) eqn:Hup.
      * split; [|split; [done|done]]. intros _ _. cbn [fst snd].
        split; [done|]. split; [|done].
        apply appended_app. cbn. by rewrite app_nil_r.
      * split; [done|]. split.
        { intros _ _. destruct direct_read; cbn [fst snd].
          - split; [by apply appended_app|done].
          - split; [by apply appended_app|done]. }
        destruct direct_read; cbn; [done|]. by destruct w as [[]].
    + apply gtb_false in Hlate. split; [done|].
      split; [intros Hl; lra|]. split; [intros Hl; lra|].
      cbn. by destruct w as [[]].
  - intros w acts Hw.
    destruct (exec_all_respects watchdog_paced (fun _ => True)
                (fun a _ => perform_watchdog_paced a) acts
                (proj2 (Forall_forall _ _) (fun _ _ => I)) w Hw)
      as (_ & _ & Hpace).
    exact Hpace.
Qed.

Lemma X16_watchdog_period_witness :
  let w := exec_all [Elapse 31 1; WatchdogPoll (Some 0%Z); Elapse 31 1]
             Scenario.start in
  let w' := run (pir_watchdog_iteration None) w in
  pir_callback_active (vars w) = false ∧
  30 < clock w - last_check_time w ∧
  appended w w' = [Entry ReadPin (clock w) (vars w)] ∧
  result (pir_watchdog_iteration None) w = None ∧
  last_check_time w' = last_check_time w.
Proof.
  cbv zeta. destruct X16_watchdog_period as [Hpoll _].
  assert (pir_callback_active
            (vars (exec_all [Elapse 31 1; WatchdogPoll (Some 0%Z); Elapse 31 1]
                     Scenario.start)) = false) as Hdown
    by (vm_compute; reflexivity).
  assert (30 < clock (exec_all [Elapse 31 1; WatchdogPoll (Some 0%Z);
                                Elapse 31 1] Scenario.start)
               - last_check_time
                   (exec_all [Elapse 31 1; WatchdogPoll (Some 0%Z);
                              Elapse 31 1] Scenario.start)) as Hlate
    by (vm_compute; reflexivity).
  destruct (Hpoll (exec_all [Elapse 31 1; WatchdogPoll (Some 0%Z); Elapse 31 1]
                     Scenario.start) None) as (_ & _ & Hread & _).
  destruct (Hread Hlate Hdown) as (Hcalls & Hres & _ & Hcheck & _).
  split; [exact Hdown|]. split; [exact Hlate|]. split; [exact Hcalls|].
  split; [exact Hres|exact Hcheck].
Defined.

(** ** The time stamps of the door logic *)

Lemma stamp_moves_refl stamp w : stamp_moves stamp w w.
Proof. by left. Qed.

Lemma stamp_moves_trans stamp w1 w2 w3 :
  clock w1 <= clock w2 → clock w2 <= clock w3 →
  stamp_moves stamp w1 w2 → stamp_moves stamp w2 w3 → stamp_moves stamp w1 w3.
Proof.
  intros Hc1 Hc2 [H1|[H1 H1']] [H2|[H2 H2']].
  - left. congruence.
  - right. split; lra.
  - right. rewrite H2. split; lra.
  - right. split; lra.
Qed.

#[local] Instance stamps_step_preorder : PreOrder stamps_step.
Proof.
  split.
  - intros w. split; [lra|]. repeat split; apply stamp_moves_refl.
  - intros w1 w2 w3 (Hc1 & Ha1 & Hs1 & Ht1) (Hc2 & Ha2 & Hs2 & Ht2).
    split; [lra|]. repeat split; by eapply stamp_moves_trans.
Qed.

Lemma process_rfid_events_vars reads w :
  vars (run (process_rfid_events reads) w) = card_served (clock w) (vars w).
Proof.
  unfold card_served.
  destruct (rfid_queue (vars w)) as [|[authorized u] rest] eqn:Hq.
  { unfold process_rfid_events, run. mstep. by rewrite Hq. }
  destruct (truthy u) eqn:Hu.
  - destruct authorized.
    + by destruct (process_rfid_events_authorized w u rest reads Hq Hu)
        as (_ & Hv & _).
    + unfold run. by rewrite (process_rfid_events_denied w u rest reads Hq Hu).
  - unfold process_rfid_events, run. mstep. rewrite Hq. mstep. by rewrite Hu.
Qed.

Lemma process_rfid_events_stamps reads :
  respects stamps_step (process_rfid_events reads).
Proof.
  intros w. pose proof (perform_clock_advances (ProcessRfid reads) w) as Hc.
  unfold clock_advances in Hc. cbn [perform] in Hc.
  split; [done|]. unfold stamp_moves. rewrite process_rfid_events_vars.
  unfold card_served.
  destruct (rfid_queue (vars w)) as [|[authorized u] rest];
    [by repeat split; left|].
  destruct (truthy u && authorized); cbn; [|by repeat split; left].
  split; [right; split; [lra|done]|]. split; by left.
Qed.

Lemma check_face_stamps : respects stamps_step check_face_recognition_result.
Proof.
  intros w. unfold run, stamps_step, stamp_moves.
  destruct (check_face_cases w)
    as [[_ ->]|[_ [[_ ->]|[_ [[_ ->]|[(? & _ & ->)|(? & ? & _ & _ & ->)]]]]]];
    cbn.
  1-4: (split; [lra|]; repeat split; by left).
  split; [lra|]. split; [right; split; lra|]. split; [right; split; lra|].
  by left.
Qed.

Lemma start_face_stamps : respects stamps_step start_face_recognition.
Proof.
  intros w. unfold run, stamps_step, stamp_moves.
  destruct (start_face_cases w) as [->|(_ & _ & ->)]; cbn.
  - split; [lra|]. repeat split; by left.
  - split; [lra|]. split; [by left|]. split; [by left|]. right. split; lra.
Qed.

#[local] Hint Resolve process_rfid_events_stamps check_face_stamps
  start_face_stamps : frame.

Ltac stamps_prim :=
  unfold stamps_step, stamp_moves, QTime.span; cbn; repeat case_match; cbn;
  (split; [first [lra | apply Qle_minus_iff; ring_simplify; done]|]);
  repeat split; by left.

Lemma perform_stamps_step a : respects stamps_step (perform a).
Proof.
  destruct a; cbn [perform];
    unfold on_face_result, pir_motion_callback, pir_watchdog_iteration,
      alarm_monitor_iteration, rfid_reader_iteration, main_loop_iteration,
      proximity_gate, check_motion_and_distance, image_done;
    respects_with stamps_prim.
Qed.

(** X17. The time stamps that the door logic compares with the clock (the
    start of the authorization window, the cooldown clock and the start of
    the request) are only ever set to the current time: along any
    execution that starts with them in the past, they stay in the past and
    never go back, so every "now minus stamp" the code computes is the
    age of the stamp. *)
Theorem X17_stamps_in_the_past w acts :
  last_authorized_open_time (vars w) <= clock w →
  last_face_recognition_success (vars w) <= clock w →
  face_recognition_start_time (vars w) <= clock w →
  let w' := exec_all acts w in
  (last_authorized_open_time (vars w) <= last_authorized_open_time (vars w') ∧
   last_authorized_open_time (vars w') <= clock w') ∧
  (last_face_recognition_success (vars w)
     <= last_face_recognition_success (vars w') ∧
   last_face_recognition_success (vars w') <= clock w') ∧
  (face_recognition_start_time (vars w)
     <= face_recognition_start_time (vars w') ∧
   face_recognition_start_time (vars w') <= clock w').
Proof.
  intros Ha Hs Ht. cbv zeta.
  destruct (exec_all_respects stamps_step (fun _ => True)
              (fun a _ => perform_stamps_step a) acts
              (proj2 (Forall_forall _ _) (fun _ _ => I)) w)
    as (Hc & Ha' & Hs' & Ht').
  unfold stamp_moves in *.
  split; [|split].
  - destruct Ha' as [->|[? ?]]; split; lra.
  - destruct Hs' as [->|[? ?]]; split; lra.
  - destruct Ht' as [->|[? ?]]; split; lra.
Qed.

Lemma X17_stamps_in_the_past_witness :
  let w' := exec_all (Scenario.attempt_times_out
                      ++ Scenario.late_result_then_approach) Scenario.start in
  last_authorized_open_time (vars w') <= clock w' ∧
  last_face_recognition_success (vars w') <= clock w' ∧
  face_recognition_start_time (vars w') <= clock w'.
Proof.
  cbv zeta.
  destruct (X17_stamps_in_the_past Scenario.start
              (Scenario.attempt_times_out
               ++ Scenario.late_result_then_approach))
    as ((_ & Ha) & (_ & Hs) & (_ & Ht)).
  - vm_compute. discriminate.
  - vm_compute. discriminate.
  - vm_compute. discriminate.
  - split; [exact Ha|]. split; [exact Hs|exact Ht].
Defined.
